(** * wordcloud_cli: configuration resolution of the word-cloud command line

    A shallow embedding of [wordcloud/wordcloud_cli.py]: the [FileType]
    stream factory, the argument conversion done by the option parser, and
    [parse_args], which turns the parsed options into the configuration
    handed to the word-cloud generator.

    Text is a list of Unicode code points, as a Python 3 [str] is.  The
    runtime primitives the script calls ([str.strip], [str.split], [int],
    iteration over a text stream) are embedded in [Module Py], following
    CPython 3 (3.6 or later: digit-group underscores are accepted by
    [int]; the optional cap on the number of digits of 3.11 is not
    modelled).

    Scope.  A stream holds the text or the bytes that a read delivers: a
    text stream whose bytes do not decode, for which a read raises
    [UnicodeDecodeError], is not represented.  A command line is a
    sequence of occurrences of the fifteen options that the script
    declares: the [-h]/[--help] option that the parser adds by itself,
    which prints the usage on standard output and exits with status 0, is
    not represented, nor is what the parser rejects before it converts
    any argument. *)

From Stdlib Require Import ZArith NArith Ascii String.
From stdpp Require Import gmap list strings.

#[local] Set Warnings "-clear-no-such-hyp".

Open Scope N_scope.

Abbreviation pystr := (list N).

(** An ASCII literal as a Python string. *)
Definition str (s : string) : pystr := N_of_ascii <$> list_ascii_of_string s.

Module Py.

(** ** Character tables *)

(** [str.isspace] on one code point: the white-space table of CPython
    ([_PyUnicode_IsWhitespace]). *)
Definition isspace (c : N) : bool :=
  ((0x09 <=? c) && (c <=? 0x0D)) || ((0x1C <=? c) && (c <=? 0x20))
  || (c =? 0x85) || (c =? 0xA0) || (c =? 0x1680)
  || ((0x2000 <=? c) && (c <=? 0x200A))
  || (c =? 0x2028) || (c =? 0x2029) || (c =? 0x202F) || (c =? 0x205F)
  || (c =? 0x3000).

(** The C locale's [isspace], the one [PyLong_FromString] uses. *)
Definition c_isspace (c : N) : bool :=
  ((0x09 <=? c) && (c <=? 0x0D)) || (c =? 0x20).

(** The code points of the digit zero of every decimal-digit script
    (general category Nd, Unicode 14); the nine that follow each one are
    its digits one to nine. *)
Definition decimal_zeros : list N :=
  [ 0x30; 0x660; 0x6F0; 0x7C0; 0x966; 0x9E6; 0xA66; 0xAE6; 0xB66; 0xBE6;
    0xC66; 0xCE6; 0xD66; 0xDE6; 0xE50; 0xED0; 0xF20; 0x1040; 0x1090;
    0x17E0; 0x1810; 0x1946; 0x19D0; 0x1A80; 0x1A90; 0x1B50; 0x1BB0;
    0x1C40; 0x1C50; 0xA620; 0xA8D0; 0xA900; 0xA9D0; 0xA9F0; 0xAA50;
    0xABF0; 0xFF10; 0x104A0; 0x10D30; 0x11066; 0x110F0; 0x11136; 0x111D0;
    0x112F0; 0x11450; 0x114D0; 0x11650; 0x116C0; 0x11730; 0x118E0;
    0x11950; 0x11C50; 0x11D50; 0x11DA0; 0x16A60; 0x16AC0; 0x16B50;
    0x1D7CE; 0x1D7D8; 0x1D7E2; 0x1D7EC; 0x1D7F6; 0x1E140; 0x1E2F0;
    0x1E950; 0x1FBF0 ].

(** [Py_UNICODE_TODECIMAL]: the value of a decimal digit, if it is one. *)
Definition todecimal (c : N) : option N :=
  (fun z => c - z) <$>
    List.find (fun z => (z <=? c) && (c <? z + 10)) decimal_zeros.

(** ** [str.strip()] *)

Fixpoint lstrip (s : pystr) : pystr :=
  match s with
  | c :: rest => if isspace c then lstrip rest else s
  | [] => []
  end.

Definition rstrip (s : pystr) : pystr := reverse (lstrip (reverse s)).

Definition strip (s : pystr) : pystr := rstrip (lstrip s).

(** ** [str.split(sep)] for a separator of one character

    [cur] is the field being read.  The result is never empty: a string
    without the separator is its own single field. *)
Fixpoint split_from (sep : N) (cur s : pystr) : list pystr :=
  match s with
  | [] => [cur]
  | c :: rest =>
      if c =? sep then cur :: split_from sep [] rest
      else split_from sep (cur ++ [c]) rest
  end.

Definition split (sep : N) (s : pystr) : list pystr := split_from sep [] s.

(** ** Lines of a text stream

    A stream in universal-newline mode (a file opened in text mode with
    the default [newline=None]) translates [\r\n] and a lone [\r] to
    [\n] in what it delivers.  Iterating a text stream, or [readlines],
    yields the lines of the delivered text, each with its terminating
    [\n], and a last unterminated line if there is one. *)
Fixpoint universal_newlines (s : pystr) : pystr :=
  match s with
  | [] => []
  | c :: rest =>
      if c =? 0x0D then
        0x0A :: match rest with
                | d :: rest' =>
                    if d =? 0x0A then universal_newlines rest'
                    else universal_newlines rest
                | [] => []
                end
      else c :: universal_newlines rest
  end.

Fixpoint lines_from (cur s : pystr) : list pystr :=
  match s with
  | [] => match cur with [] => [] | _ => [cur] end
  | c :: rest =>
      if c =? 0x0A then (cur ++ [c]) :: lines_from [] rest
      else lines_from (cur ++ [c]) rest
  end.

Definition readlines (text : pystr) : list pystr := lines_from [] text.

(** ** [int(s)] for a string, base ten

    [PyLong_FromUnicodeObject]: the string is first rewritten to ASCII
    (code points below 127 stay, a Unicode space becomes a blank, a
    Unicode decimal digit becomes its ASCII digit, anything else becomes
    [?] and ends the buffer), then read by [PyLong_FromString]: blanks, a
    sign, digits with single underscores between them, blanks, end. *)
Fixpoint to_ascii (s : pystr) : pystr :=
  match s with
  | [] => []
  | ch :: rest =>
      if ch <? 127 then ch :: to_ascii rest
      else if isspace ch then 0x20 :: to_ascii rest
      else match todecimal ch with
           | Some d => (0x30 + d) :: to_ascii rest
           | None => [0x3F]
           end
  end.

Fixpoint skip_c_space (s : pystr) : pystr :=
  match s with
  | c :: rest => if c_isspace c then skip_c_space rest else s
  | [] => []
  end.

Definition is_ascii_digit (c : N) : bool := (0x30 <=? c) && (c <=? 0x39).

(** The digit scan: [prev_us] tells that the previous character was an
    underscore, [seen] that a digit has been read, [acc] is the value so
    far.  Returns the value and the unread rest. *)
Fixpoint scan_digits (prev_us seen : bool) (acc : Z) (s : pystr)
  : option (Z * pystr) :=
  let stop := if prev_us then None
              else if seen then Some (acc, s) else None in
  match s with
  | [] => stop
  | c :: rest =>
      if is_ascii_digit c then
        scan_digits false true (acc * 10 + Z.of_N (c - 0x30))%Z rest
      else if c =? 0x5F then
        if prev_us then None else scan_digits true seen acc rest
      else stop
  end.

Definition long_from_string (s : pystr) : option Z :=
  let s := skip_c_space s in
  let '(sign, s) :=
    match s with
    | c :: rest =>
        if c =? 0x2B then (1%Z, rest)
        else if c =? 0x2D then ((-1)%Z, rest)
        else (1%Z, s)
    | [] => (1%Z, s)
    end in
  match s with
  | c :: _ => if c =? 0x5F then None else
      match scan_digits false false 0 s with
      | Some (v, rest) =>
          match skip_c_space rest with
          | [] => Some (sign * v)%Z
          | _ => None
          end
      | None => None
      end
  | [] => None
  end.

Definition int (s : pystr) : option Z := long_from_string (to_ascii s).

(** [dict(pairs)]: the pairs are inserted from first to last, so a key
    given twice keeps the value of its last pair. *)
Definition dict {V} (pairs : list (pystr * V)) : gmap pystr V :=
  foldl (fun d kv => <[kv.1 := kv.2]> d) ∅ pairs.

End Py.

(** * Exceptions, streams and the host

    What can be raised.  A message built with [%r] is kept as the format's
    constructor applied to its argument; a message built with [%s] is
    written out. *)
Inductive message :=
| Msg (text : pystr)
| MsgDashMode (mode : pystr)
    (* 'argument "-" with mode %r' % self._mode *)
| MsgInvalidLiteral (literal : pystr)
    (* int(): "invalid literal for int() with base 10: %r" *)
| MsgInvalidValue (type_name : pystr) (value : pystr)
    (* the option parser: "invalid %s value: %r" *)
| MsgClosedFile
    (* "I/O operation on closed file." *).

Inductive exn :=
| ValueError (m : message)
| IndexError
| ArgumentTypeError (m : message)
| SystemExit (status : Z) (diagnostic : message)
| CollaboratorError (who : pystr).

Inductive result (A : Type) :=
| Ok (a : A)
| Raise (e : exn).
Arguments Ok {A} a.
Arguments Raise {A} e.

(** A stream object: what is left to read (the decoded characters, or the
    bytes), whether it was closed, and whether it translates newlines.
    The stream table of a run starts with standard input at index 0 and
    standard output at index 1; every successful [open] appends one. *)
Record stream_state := { rest : pystr; closed : bool; universal : bool }.

(** What a text read of the stream delivers. *)
Definition delivered (st : stream_state) : pystr :=
  if universal st then Py.universal_newlines (rest st) else rest st.

Inductive event :=
| EvOpen (path mode : pystr) (h : nat)
| EvRead (h : nat)
| EvClose (h : nat).

Record world := { streams : list stream_state; trace : list event }.

Definition stdin : nat := 0%nat.
Definition stdout : nat := 1%nat.

(** The world at the start: whether standard input translates newlines
    depends on the platform (it does not on POSIX). *)
Definition initial_world (stdin_universal : bool) (stdin_content : pystr)
  : world :=
  {| streams := [ {| rest := stdin_content; closed := false;
                     universal := stdin_universal |};
                  {| rest := []; closed := false; universal := false |} ];
     trace := [] |}.

(** What [io.open] answers for a path. *)
Inductive open_outcome :=
| Opened (content : pystr)
| OpenIOError (e : pystr)
| OpenRaises (x : exn).

(** The host and the collaborators the script calls: the file system
    (what [open] answers for a path, a mode, a buffer size and an
    encoding; the decoded text, or the bytes, of a file that opens; a file
    whose bytes do not decode is not represented),
    [float], the image decoder [np.array(Image.open(f))] on the bytes of
    [f], and the two colour-function constructors of the [wordcloud]
    package, which may reject their argument. *)
Record Host := {
  Pixels : Type;
  Float : Type;
  io_open : pystr -> pystr -> Z -> option pystr -> open_outcome;
  float : pystr -> option Float;
  image_array : pystr -> option Pixels;
  image_colors_ok : Pixels -> bool;
  single_color_ok : pystr -> bool
}.

(** ** The monad of the script: a world threaded through, and exceptions *)
Definition M (A : Type) : Type := world -> world * result A.

Definition ret {A} (a : A) : M A := fun w => (w, Ok a).

Definition raise {A} (e : exn) : M A := fun w => (w, Raise e).

Definition bind {A B} (m : M A) (k : A -> M B) : M B :=
  fun w => match m w with
           | (w', Ok a) => k a w'
           | (w', Raise e) => (w', Raise e)
           end.

Notation "x <- m ;; k" := (bind m (fun x => k))
  (at level 100, m at next level, right associativity).

Definition lift {A} (r : result A) : M A := fun w => (w, r).

Definition emit (ev : event) (w : world) : world :=
  {| streams := streams w; trace := trace w ++ [ev] |}.

(** Reading a stream to its end, [view] telling what the reader gets of
    what is left.  (What a stream holds is taken to decode: the
    [UnicodeDecodeError] of a text stream of other bytes is not
    represented.) *)
Definition read_with (view : stream_state -> pystr) (h : nat) : M pystr :=
  fun w => match streams w !! h with
           | Some st =>
               if closed st then (w, Raise (ValueError MsgClosedFile))
               else (emit (EvRead h)
                       {| streams := <[h := {| rest := []; closed := false;
                                               universal := universal st |}]>
                                       (streams w);
                          trace := trace w |},
                     Ok (view st))
           | None => (w, Raise (ValueError MsgClosedFile))
           end.

(** [f.read()] and iteration to the end of a text stream: the text that is
    left, as the stream delivers it. *)
Definition read (h : nat) : M pystr := read_with delivered h.

(** The bytes that are left, for a reader of the binary stream. *)
Definition read_bytes (h : nat) : M pystr := read_with rest h.

Definition close (h : nat) (w : world) : world :=
  emit (EvClose h)
    {| streams := match streams w !! h with
                  | Some st => <[h := {| rest := rest st; closed := true;
                                         universal := universal st |}]>
                                 (streams w)
                  | None => streams w
                  end;
       trace := trace w |}.

(** [with f: body]: entering a closed stream raises; the stream is closed
    on the way out, whether the body returned or raised. *)
Definition with_stream {A} (h : nat) (body : M A) : M A :=
  fun w => match streams w !! h with
           | Some st =>
               if closed st then (w, Raise (ValueError MsgClosedFile))
               else let '(w', r) := body w in (close h w', r)
           | None => (w, Raise (ValueError MsgClosedFile))
           end.

Section Script.

Context {host : Host}.

(** ** [FileType.__call__] (lines 37-53) *)

(** The message ["can't open '%s': %s" % (string, e)]. *)
Definition cant_open (string e : pystr) : pystr :=
  str "can't open '" ++ string ++ str "': " ++ e.

(** The stream of a file that opened: it translates newlines unless the
    mode is binary. *)
Definition new_stream (path mode content : pystr) : M nat :=
  fun w =>
    let h := length (streams w) in
    (emit (EvOpen path mode h)
       {| streams := streams w
                       ++ [ {| rest := content; closed := false;
                               universal := bool_decide (0x62 ∉ mode) |} ];
          trace := trace w |},
     Ok h).

(** [_mode] and [_bufsize] are the attributes set by [__init__]. *)
Definition FileType_call (_mode : pystr) (_bufsize : Z) (string : pystr)
  : M nat :=
  if decide (string = str "-") then
    if decide (0x72 ∈ _mode) then ret stdin
    else if decide (0x77 ∈ _mode) then ret stdout
    else raise (ValueError (MsgDashMode _mode))
  else
    match io_open host string _mode _bufsize (Some (str "UTF-8")) with
    | Opened content => new_stream string _mode content
    | OpenIOError e => raise (ArgumentTypeError (Msg (cant_open string e)))
    | OpenRaises x => raise x
    end.

(** The library's [argparse.FileType], of which the class above is a port:
    the same, without the encoding.  (The binary standard streams it may
    return are the same descriptors, hence the same entries of the stream
    table.) *)
Definition argparse_FileType_call (_mode : pystr) (_bufsize : Z)
    (string : pystr) : M nat :=
  if decide (string = str "-") then
    if decide (0x72 ∈ _mode) then ret stdin
    else if decide (0x77 ∈ _mode) then ret stdout
    else raise (ValueError (MsgDashMode _mode))
  else
    match io_open host string _mode _bufsize None with
    | Opened content => new_stream string _mode content
    | OpenIOError e => raise (ArgumentTypeError (Msg (cant_open string e)))
    | OpenRaises x => raise x
    end.

(** ** The option parser (lines 83-137)

    The command line is taken after the parser has split it: the
    occurrences of the fifteen options, in the order given, each with its
    argument string.  (Argument vectors the parser rejects while splitting,
    with an unknown option or a missing argument, are not represented;
    nor is the [-h]/[--help] option that the parser adds to the declared
    ones, which prints the usage on standard output and exits with
    status 0.) *)
Inductive cli_opt :=
| opt_text (v : pystr)
| opt_stopwords (v : pystr)
| opt_wordlist (v : pystr)
| opt_colormode (v : pystr)
| opt_imagefile (v : pystr)
| opt_fontfile (v : pystr)
| opt_mask (v : pystr)
| opt_colormask (v : pystr)
| opt_relative_scaling (v : pystr)
| opt_margin (v : pystr)
| opt_width (v : pystr)
| opt_height (v : pystr)
| opt_color (v : pystr)
| opt_background (v : pystr)
| opt_no_collocations.

(** [relative_scaling] is the integer [0] of its default unless the option
    is given, and then the [float] of its argument. *)
Inductive scaling :=
| ScalingDefault
| ScalingFloat (f : Float host).

(** The namespace as [parser.parse_args] returns it: the stream-typed
    options hold stream objects (indices of the stream table). *)
Record Namespace := {
  ns_text : nat;
  ns_stopwords : option nat;
  ns_wordlist : option nat;
  ns_colormode : pystr;
  ns_imagefile : nat;
  ns_font_path : option pystr;
  ns_mask : option nat;
  ns_colormask : option nat;
  ns_relative_scaling : scaling;
  ns_margin : Z;
  ns_width : Z;
  ns_height : Z;
  ns_color : option pystr;
  ns_background_color : pystr;
  ns_no_collocations : bool
}.

Definition set_text (v : nat) (ns : Namespace) : Namespace :=
  {| ns_text := v; ns_stopwords := ns_stopwords ns;
     ns_wordlist := ns_wordlist ns; ns_colormode := ns_colormode ns;
     ns_imagefile := ns_imagefile ns; ns_font_path := ns_font_path ns;
     ns_mask := ns_mask ns; ns_colormask := ns_colormask ns;
     ns_relative_scaling := ns_relative_scaling ns;
     ns_margin := ns_margin ns; ns_width := ns_width ns;
     ns_height := ns_height ns; ns_color := ns_color ns;
     ns_background_color := ns_background_color ns;
     ns_no_collocations := ns_no_collocations ns |}.

Definition set_stopwords (v : option nat) (ns : Namespace) : Namespace :=
  {| ns_text := ns_text ns; ns_stopwords := v;
     ns_wordlist := ns_wordlist ns; ns_colormode := ns_colormode ns;
     ns_imagefile := ns_imagefile ns; ns_font_path := ns_font_path ns;
     ns_mask := ns_mask ns; ns_colormask := ns_colormask ns;
     ns_relative_scaling := ns_relative_scaling ns;
     ns_margin := ns_margin ns; ns_width := ns_width ns;
     ns_height := ns_height ns; ns_color := ns_color ns;
     ns_background_color := ns_background_color ns;
     ns_no_collocations := ns_no_collocations ns |}.

Definition set_wordlist (v : option nat) (ns : Namespace) : Namespace :=
  {| ns_text := ns_text ns; ns_stopwords := ns_stopwords ns;
     ns_wordlist := v; ns_colormode := ns_colormode ns;
     ns_imagefile := ns_imagefile ns; ns_font_path := ns_font_path ns;
     ns_mask := ns_mask ns; ns_colormask := ns_colormask ns;
     ns_relative_scaling := ns_relative_scaling ns;
     ns_margin := ns_margin ns; ns_width := ns_width ns;
     ns_height := ns_height ns; ns_color := ns_color ns;
     ns_background_color := ns_background_color ns;
     ns_no_collocations := ns_no_collocations ns |}.

Definition set_colormode (v : pystr) (ns : Namespace) : Namespace :=
  {| ns_text := ns_text ns; ns_stopwords := ns_stopwords ns;
     ns_wordlist := ns_wordlist ns; ns_colormode := v;
     ns_imagefile := ns_imagefile ns; ns_font_path := ns_font_path ns;
     ns_mask := ns_mask ns; ns_colormask := ns_colormask ns;
     ns_relative_scaling := ns_relative_scaling ns;
     ns_margin := ns_margin ns; ns_width := ns_width ns;
     ns_height := ns_height ns; ns_color := ns_color ns;
     ns_background_color := ns_background_color ns;
     ns_no_collocations := ns_no_collocations ns |}.

Definition set_imagefile (v : nat) (ns : Namespace) : Namespace :=
  {| ns_text := ns_text ns; ns_stopwords := ns_stopwords ns;
     ns_wordlist := ns_wordlist ns; ns_colormode := ns_colormode ns;
     ns_imagefile := v; ns_font_path := ns_font_path ns;
     ns_mask := ns_mask ns; ns_colormask := ns_colormask ns;
     ns_relative_scaling := ns_relative_scaling ns;
     ns_margin := ns_margin ns; ns_width := ns_width ns;
     ns_height := ns_height ns; ns_color := ns_color ns;
     ns_background_color := ns_background_color ns;
     ns_no_collocations := ns_no_collocations ns |}.

Definition set_font_path (v : option pystr) (ns : Namespace) : Namespace :=
  {| ns_text := ns_text ns; ns_stopwords := ns_stopwords ns;
     ns_wordlist := ns_wordlist ns; ns_colormode := ns_colormode ns;
     ns_imagefile := ns_imagefile ns; ns_font_path := v;
     ns_mask := ns_mask ns; ns_colormask := ns_colormask ns;
     ns_relative_scaling := ns_relative_scaling ns;
     ns_margin := ns_margin ns; ns_width := ns_width ns;
     ns_height := ns_height ns; ns_color := ns_color ns;
     ns_background_color := ns_background_color ns;
     ns_no_collocations := ns_no_collocations ns |}.

Definition set_mask (v : option nat) (ns : Namespace) : Namespace :=
  {| ns_text := ns_text ns; ns_stopwords := ns_stopwords ns;
     ns_wordlist := ns_wordlist ns; ns_colormode := ns_colormode ns;
     ns_imagefile := ns_imagefile ns; ns_font_path := ns_font_path ns;
     ns_mask := v; ns_colormask := ns_colormask ns;
     ns_relative_scaling := ns_relative_scaling ns;
     ns_margin := ns_margin ns; ns_width := ns_width ns;
     ns_height := ns_height ns; ns_color := ns_color ns;
     ns_background_color := ns_background_color ns;
     ns_no_collocations := ns_no_collocations ns |}.

Definition set_colormask (v : option nat) (ns : Namespace) : Namespace :=
  {| ns_text := ns_text ns; ns_stopwords := ns_stopwords ns;
     ns_wordlist := ns_wordlist ns; ns_colormode := ns_colormode ns;
     ns_imagefile := ns_imagefile ns; ns_font_path := ns_font_path ns;
     ns_mask := ns_mask ns; ns_colormask := v;
     ns_relative_scaling := ns_relative_scaling ns;
     ns_margin := ns_margin ns; ns_width := ns_width ns;
     ns_height := ns_height ns; ns_color := ns_color ns;
     ns_background_color := ns_background_color ns;
     ns_no_collocations := ns_no_collocations ns |}.

Definition set_relative_scaling (v : scaling) (ns : Namespace) : Namespace :=
  {| ns_text := ns_text ns; ns_stopwords := ns_stopwords ns;
     ns_wordlist := ns_wordlist ns; ns_colormode := ns_colormode ns;
     ns_imagefile := ns_imagefile ns; ns_font_path := ns_font_path ns;
     ns_mask := ns_mask ns; ns_colormask := ns_colormask ns;
     ns_relative_scaling := v; ns_margin := ns_margin ns;
     ns_width := ns_width ns; ns_height := ns_height ns;
     ns_color := ns_color ns;
     ns_background_color := ns_background_color ns;
     ns_no_collocations := ns_no_collocations ns |}.

Definition set_margin (v : Z) (ns : Namespace) : Namespace :=
  {| ns_text := ns_text ns; ns_stopwords := ns_stopwords ns;
     ns_wordlist := ns_wordlist ns; ns_colormode := ns_colormode ns;
     ns_imagefile := ns_imagefile ns; ns_font_path := ns_font_path ns;
     ns_mask := ns_mask ns; ns_colormask := ns_colormask ns;
     ns_relative_scaling := ns_relative_scaling ns; ns_margin := v;
     ns_width := ns_width ns; ns_height := ns_height ns;
     ns_color := ns_color ns;
     ns_background_color := ns_background_color ns;
     ns_no_collocations := ns_no_collocations ns |}.

Definition set_width (v : Z) (ns : Namespace) : Namespace :=
  {| ns_text := ns_text ns; ns_stopwords := ns_stopwords ns;
     ns_wordlist := ns_wordlist ns; ns_colormode := ns_colormode ns;
     ns_imagefile := ns_imagefile ns; ns_font_path := ns_font_path ns;
     ns_mask := ns_mask ns; ns_colormask := ns_colormask ns;
     ns_relative_scaling := ns_relative_scaling ns;
     ns_margin := ns_margin ns; ns_width := v; ns_height := ns_height ns;
     ns_color := ns_color ns;
     ns_background_color := ns_background_color ns;
     ns_no_collocations := ns_no_collocations ns |}.

Definition set_height (v : Z) (ns : Namespace) : Namespace :=
  {| ns_text := ns_text ns; ns_stopwords := ns_stopwords ns;
     ns_wordlist := ns_wordlist ns; ns_colormode := ns_colormode ns;
     ns_imagefile := ns_imagefile ns; ns_font_path := ns_font_path ns;
     ns_mask := ns_mask ns; ns_colormask := ns_colormask ns;
     ns_relative_scaling := ns_relative_scaling ns;
     ns_margin := ns_margin ns; ns_width := ns_width ns; ns_height := v;
     ns_color := ns_color ns;
     ns_background_color := ns_background_color ns;
     ns_no_collocations := ns_no_collocations ns |}.

Definition set_color (v : option pystr) (ns : Namespace) : Namespace :=
  {| ns_text := ns_text ns; ns_stopwords := ns_stopwords ns;
     ns_wordlist := ns_wordlist ns; ns_colormode := ns_colormode ns;
     ns_imagefile := ns_imagefile ns; ns_font_path := ns_font_path ns;
     ns_mask := ns_mask ns; ns_colormask := ns_colormask ns;
     ns_relative_scaling := ns_relative_scaling ns;
     ns_margin := ns_margin ns; ns_width := ns_width ns;
     ns_height := ns_height ns; ns_color := v;
     ns_background_color := ns_background_color ns;
     ns_no_collocations := ns_no_collocations ns |}.

Definition set_background_color (v : pystr) (ns : Namespace) : Namespace :=
  {| ns_text := ns_text ns; ns_stopwords := ns_stopwords ns;
     ns_wordlist := ns_wordlist ns; ns_colormode := ns_colormode ns;
     ns_imagefile := ns_imagefile ns; ns_font_path := ns_font_path ns;
     ns_mask := ns_mask ns; ns_colormask := ns_colormask ns;
     ns_relative_scaling := ns_relative_scaling ns;
     ns_margin := ns_margin ns; ns_width := ns_width ns;
     ns_height := ns_height ns; ns_color := ns_color ns;
     ns_background_color := v;
     ns_no_collocations := ns_no_collocations ns |}.

Definition set_no_collocations (v : bool) (ns : Namespace) : Namespace :=
  {| ns_text := ns_text ns; ns_stopwords := ns_stopwords ns;
     ns_wordlist := ns_wordlist ns; ns_colormode := ns_colormode ns;
     ns_imagefile := ns_imagefile ns; ns_font_path := ns_font_path ns;
     ns_mask := ns_mask ns; ns_colormask := ns_colormask ns;
     ns_relative_scaling := ns_relative_scaling ns;
     ns_margin := ns_margin ns; ns_width := ns_width ns;
     ns_height := ns_height ns; ns_color := ns_color ns;
     ns_background_color := ns_background_color ns;
     ns_no_collocations := v |}.

(** The defaults.  The two string defaults that have a [type], ["-"] for
    [--text] and for [--imagefile], are converted by the parser when the
    option is absent; the conversion of ["-"] touches nothing and yields
    standard input and standard output. *)
Definition defaults : Namespace :=
  {| ns_text := stdin; ns_stopwords := None; ns_wordlist := None;
     ns_colormode := str "RGB"; ns_imagefile := stdout;
     ns_font_path := None; ns_mask := None; ns_colormask := None;
     ns_relative_scaling := ScalingDefault; ns_margin := 2; ns_width := 400;
     ns_height := 200; ns_color := None; ns_background_color := str "black";
     ns_no_collocations := false |}.

(** The parser's [_get_value]: an [ArgumentTypeError] or a [ValueError]
    of the [type] function ends the process through [parser.error], with
    exit status 2; any other exception passes. *)
Definition get_value {A} (type_name arg_string : pystr) (type_func : M A)
  : M A :=
  fun w =>
    match type_func w with
    | (w', Raise (ArgumentTypeError m)) => (w', Raise (SystemExit 2 m))
    | (w', Raise (ValueError _)) =>
        (w', Raise (SystemExit 2 (MsgInvalidValue type_name arg_string)))
    | r => r
    end.

Definition int_type (v : pystr) : M Z :=
  match Py.int v with
  | Some n => ret n
  | None => raise (ValueError (MsgInvalidLiteral v))
  end.

Definition float_type (v : pystr) : M (Float host) :=
  match float host v with
  | Some f => ret f
  | None => raise (ValueError (MsgInvalidLiteral v))
  end.

(** One occurrence of an option: its [type] is applied to the argument
    string and the result is stored under its [dest]. *)
Definition take_option (o : cli_opt) (ns : Namespace) : M Namespace :=
  match o with
  | opt_text v =>
      f <- get_value (str "FileType('r')") v (FileType_call (str "r") (-1) v) ;;
      ret (set_text f ns)
  | opt_stopwords v =>
      f <- get_value (str "FileType('r')") v (FileType_call (str "r") (-1) v) ;;
      ret (set_stopwords (Some f) ns)
  | opt_wordlist v =>
      f <- get_value (str "FileType('r')") v (FileType_call (str "r") (-1) v) ;;
      ret (set_wordlist (Some f) ns)
  | opt_colormode v => ret (set_colormode v ns)
  | opt_imagefile v =>
      f <- get_value (str "FileType('wb')") v
             (argparse_FileType_call (str "wb") (-1) v) ;;
      ret (set_imagefile f ns)
  | opt_fontfile v => ret (set_font_path (Some v) ns)
  | opt_mask v =>
      f <- get_value (str "FileType('rb')") v
             (argparse_FileType_call (str "rb") (-1) v) ;;
      ret (set_mask (Some f) ns)
  | opt_colormask v =>
      f <- get_value (str "FileType('rb')") v
             (argparse_FileType_call (str "rb") (-1) v) ;;
      ret (set_colormask (Some f) ns)
  | opt_relative_scaling v =>
      x <- get_value (str "float") v (float_type v) ;;
      ret (set_relative_scaling (ScalingFloat x) ns)
  | opt_margin v =>
      n <- get_value (str "int") v (int_type v) ;; ret (set_margin n ns)
  | opt_width v =>
      n <- get_value (str "int") v (int_type v) ;; ret (set_width n ns)
  | opt_height v =>
      n <- get_value (str "int") v (int_type v) ;; ret (set_height n ns)
  | opt_color v => ret (set_color (Some v) ns)
  | opt_background v => ret (set_background_color v ns)
  | opt_no_collocations => ret (set_no_collocations true ns)
  end.

Fixpoint consume_args (arguments : list cli_opt) (ns : Namespace)
  : M Namespace :=
  match arguments with
  | [] => ret ns
  | o :: more => ns' <- take_option o ns ;; consume_args more ns'
  end.

Definition parser_parse_args (arguments : list cli_opt) : M Namespace :=
  consume_args arguments defaults.

(** ** [parse_args] (lines 139-177) *)

(** The loop over the lines of the wordlist (lines 146-150); [wordlist] is
    the list built so far. *)
Fixpoint wordlist_loop (lines : list pystr) (wordlist : list (pystr * Z))
  : result (list (pystr * Z)) :=
  match lines with
  | [] => Ok wordlist
  | line :: more =>
      let line := Py.strip line in
      if (length line =? 0)%nat then wordlist_loop more wordlist
      else
        let items := Py.split 0x3B line in
        match items !! 1%nat with
        | None => Raise IndexError
        | Some count =>
            match Py.int count with
            | None => Raise (ValueError (MsgInvalidLiteral count))
            | Some n =>
                wordlist_loop more (wordlist ++ [(default [] (head items), n)])
            end
        end
  end.

(** The wordlist of the text a stream delivers: the loop, then [dict]
    (line 151). *)
Definition parse_wordlist (content : pystr) : result (gmap pystr Z) :=
  match wordlist_loop (Py.readlines content) [] with
  | Ok wordlist => Ok (Py.dict wordlist)
  | Raise e => Raise e
  end.

(** Line 161. *)
Definition stopword_set (content : pystr) : gset pystr :=
  list_to_set (Py.strip <$> Py.readlines content).

(** Lines 156-157. *)
Definition normalize_background (background_color : pystr) : pystr :=
  if decide (background_color = str "None") then str "#ffffff00"
  else if decide (background_color = str "none") then str "#ffffff00"
  else background_color.

(** The colour functions of the [wordcloud] package. *)
Inductive ColorFunction :=
| random_color_func
| ImageColorGenerator (image : Pixels host)
| get_single_color_func (color : pystr).

(** [np.array(Image.open(f))]: the bytes of the stream are read and
    decoded. *)
Definition load_image (f : nat) : M (Pixels host) :=
  bytes <- read_bytes f ;;
  match image_array host bytes with
  | Some image => ret image
  | None => raise (CollaboratorError (str "Image.open"))
  end.

(** Truth values of the tested attributes: a stream object is true, [None]
    is false, a string is true when it is not empty. *)
Definition truthy_stream (f : option nat) : bool :=
  match f with Some _ => true | None => false end.

Definition truthy_str (s : option pystr) : bool :=
  match s with Some (_ :: _) => true | _ => false end.

(** [args.text] is the stream until line 154 replaces it by what was read. *)
Inductive text_value :=
| TextStream (f : nat)
| TextContent (s : pystr).

(** The namespace as [parse_args] returns it.  The script updates the
    attributes of the parser's namespace one after the other; here each new
    value is computed in the same order and the record is built at the
    [return], the namespace not being seen by anyone before. *)
Record Args := {
  text : text_value;
  stopwords : option (gset pystr);
  wordlist : option (gmap pystr Z);
  colormode : pystr;
  imagefile : nat;
  font_path : option pystr;
  mask : option (Pixels host);
  colormask : option nat;
  relative_scaling : scaling;
  margin : Z;
  width : Z;
  height : Z;
  color : option pystr;
  background_color : pystr;
  no_collocations : bool;
  collocations : bool;
  color_func : ColorFunction
}.

Definition exclusive_message : pystr :=
  str "specify either a color mask or a color function".

(** What follows [parser.parse_args] (lines 139-177). *)
Definition resolve (ns : Namespace) : M Args :=
  if truthy_stream (ns_colormask ns) && truthy_str (ns_color ns) then
    raise (ValueError (Msg exclusive_message))
  else
    input <-
      match ns_wordlist ns with
      | Some wordlist_file =>
          d <- with_stream wordlist_file
                 (content <- read wordlist_file ;;
                  lift (parse_wordlist content)) ;;
          ret (TextStream (ns_text ns), Some d)
      | None =>
          s <- with_stream (ns_text ns) (read (ns_text ns)) ;;
          ret (TextContent s, None)
      end ;;
    let background := normalize_background (ns_background_color ns) in
    stop <-
      match ns_stopwords ns with
      | Some f =>
          content <- with_stream f (read f) ;; ret (Some (stopword_set content))
      | None => ret None
      end ;;
    mask_array <-
      match ns_mask ns with
      | Some f => image <- load_image f ;; ret (Some image)
      | None => ret None
      end ;;
    cf <-
      match ns_colormask ns with
      | Some f =>
          image <- load_image f ;;
          if image_colors_ok host image then ret (ImageColorGenerator image)
          else raise (CollaboratorError (str "ImageColorGenerator"))
      | None => ret random_color_func
      end ;;
    cf <-
      (if truthy_str (ns_color ns) then
         let c := default [] (ns_color ns) in
         if single_color_ok host c then ret (get_single_color_func c)
         else raise (CollaboratorError (str "get_single_color_func"))
       else ret cf) ;;
    ret {| text := input.1; stopwords := stop; wordlist := input.2;
           colormode := ns_colormode ns; imagefile := ns_imagefile ns;
           font_path := ns_font_path ns; mask := mask_array;
           colormask := ns_colormask ns;
           relative_scaling := ns_relative_scaling ns;
           margin := ns_margin ns; width := ns_width ns;
           height := ns_height ns; color := ns_color ns;
           background_color := background;
           no_collocations := ns_no_collocations ns;
           collocations := negb (ns_no_collocations ns);
           color_func := cf |}.

Definition parse_args (arguments : list cli_opt) : M Args :=
  ns <- parser_parse_args arguments ;; resolve ns.

(** ** [main] (lines 69-72): which generation call is made, and on what *)
Inductive generation :=
| generate_from_frequencies (frequencies : gmap pystr Z)
| generate (t : text_value).

Definition main (args : Args) : generation :=
  match wordlist args with
  | Some frequencies => generate_from_frequencies frequencies
  | None => generate (text args)
  end.

End Script.

Arguments scaling host : clear implicits.
Arguments Namespace host : clear implicits.
Arguments ColorFunction host : clear implicits.
Arguments Args host : clear implicits.

#[global] Instance cli_opt_eq_dec : EqDecision cli_opt.
Proof. solve_decision. Defined.

(** * Vocabulary of the statements *)

(** ** Lines of a wordlist

    A line the loop accepts: blank once trimmed, or with a second field that
    [int] reads.  [line_pair] is the pair such a line contributes, and
    [line_error] what a line that is not accepted raises. *)
Definition line_ok (line : pystr) : Prop :=
  Py.strip line = [] \/
  exists count n,
    Py.split 0x3B (Py.strip line) !! 1%nat = Some count /\
    Py.int count = Some n.

Definition line_pair (line : pystr) : option (pystr * Z) :=
  match Py.strip line with
  | [] => None
  | _ =>
      count ← Py.split 0x3B (Py.strip line) !! 1%nat;
      n ← Py.int count;
      Some (default [] (head (Py.split 0x3B (Py.strip line))), n)
  end.

Definition line_error (line : pystr) : exn :=
  match Py.split 0x3B (Py.strip line) !! 1%nat with
  | None => IndexError
  | Some count => ValueError (MsgInvalidLiteral count)
  end.

(** A string that is empty or starts with a character that is not white
    space. *)
Definition clean_head (s : pystr) : Prop :=
  match s with [] => True | c :: _ => Py.isspace c = false end.

(** ** The command line: what the last occurrence of an option leaves *)
Definition background_argument (arguments : list cli_opt) (b : pystr)
  : pystr :=
  foldl (fun b o => match o with opt_background v => v | _ => b end)
        b arguments.

Definition color_argument (arguments : list cli_opt) (c : option pystr)
  : option pystr :=
  foldl (fun c o => match o with opt_color v => Some v | _ => c end)
        c arguments.

Definition supplied_colormask (arguments : list cli_opt) : Prop :=
  exists path, opt_colormask path ∈ arguments.

Definition supplied_wordlist (arguments : list cli_opt) : Prop :=
  exists path, opt_wordlist path ∈ arguments.

(** ** Worlds

    [only_opens w w']: from [w] to [w'] streams were opened and nothing
    else happened: the streams of [w] are as they were, the trace grew by
    [EvOpen] events. *)
Definition only_opens (w w' : world) : Prop :=
  exists new evs,
    streams w' = streams w ++ new /\ trace w' = trace w ++ evs /\
    Forall (fun ev => exists p m h, ev = EvOpen p m h) evs.

(** A stream that [FileType('rb')] returned: standard input, or a stream
    whose opening in that mode is in the trace. *)
Definition opened_rb (w : world) (f : nat) : Prop :=
  f = stdin \/ exists path, EvOpen path (str "rb") f ∈ trace w.

(** [reads_only hs w w']: the trace grew, and the streams read meanwhile
    are among [hs]. *)
Definition reads_only (hs : list nat) (w w' : world) : Prop :=
  exists evs,
    trace w' = trace w ++ evs /\ forall h, EvRead h ∈ evs -> h ∈ hs.

Definition reads_in {A} (hs : list nat) (m : M A) : Prop :=
  forall w w' r, m w = (w', r) -> reads_only hs w w'.

(** The streams [resolve] may read: the input (the wordlist if there is
    one, the text otherwise), the stopwords, the mask and the colour mask. *)
Definition input_stream {host} (ns : Namespace host) : nat :=
  default (ns_text ns) (ns_wordlist ns).

Definition read_streams {host} (ns : Namespace host) : list nat :=
  input_stream ns :: option_list (ns_stopwords ns)
    ++ option_list (ns_mask ns) ++ option_list (ns_colormask ns).

(** An exception that is a [ValueError] with a plain message. *)
Definition plain (e : exn) : Prop := exists t, e = ValueError (Msg t).

Definition raises_no_plain {A} (m : M A) : Prop :=
  forall w w' e, m w = (w', Raise e) -> ~ plain e.

(** ** A host for the examples

    The files are those of a list, every image decodes to its bytes, and
    every argument of [float] and of the colour functions is accepted. *)
Definition simple_host (files : list (pystr * pystr)) : Host :=
  {| Pixels := pystr;
     Float := pystr;
     io_open := fun path _ _ _ =>
       match (list_to_map files : gmap pystr pystr) !! path with
       | Some content => Opened content
       | None => OpenIOError (str "[Errno 2] No such file or directory")
       end;
     float := Some;
     image_array := Some;
     image_colors_ok := fun _ => true;
     single_color_ok := fun _ => true |}.

(** ** The command line, continued

    The file a file-valued option opens, with the mode of its [type]; the
    argument ["-"] opens nothing. *)
Definition file_option (o : cli_opt) : option (pystr * pystr) :=
  match o with
  | opt_text v | opt_stopwords v | opt_wordlist v =>
      if decide (v = str "-") then None else Some (v, str "r")
  | opt_imagefile v =>
      if decide (v = str "-") then None else Some (v, str "wb")
  | opt_mask v | opt_colormask v =>
      if decide (v = str "-") then None else Some (v, str "rb")
  | _ => None
  end.

(** The openings of a list of files, the first of which gets the stream
    [n]. *)
Fixpoint opens_from (n : nat) (files : list (pystr * pystr)) : list event :=
  match files with
  | [] => []
  | (path, mode) :: more => EvOpen path mode n :: opens_from (S n) more
  end.

(** The argument of the last occurrence of the options that [sel]
    selects. *)
Definition last_argument (sel : cli_opt -> option pystr)
    (arguments : list cli_opt) (c : option pystr) : option pystr :=
  foldl (fun c o => match sel o with Some v => Some v | None => c end)
        c arguments.

Definition width_of (o : cli_opt) : option pystr :=
  match o with opt_width v => Some v | _ => None end.

Definition height_of (o : cli_opt) : option pystr :=
  match o with opt_height v => Some v | _ => None end.

Definition margin_of (o : cli_opt) : option pystr :=
  match o with opt_margin v => Some v | _ => None end.

Definition text_of (o : cli_opt) : option pystr :=
  match o with opt_text v => Some v | _ => None end.

Definition stopwords_of (o : cli_opt) : option pystr :=
  match o with opt_stopwords v => Some v | _ => None end.

Definition wordlist_of (o : cli_opt) : option pystr :=
  match o with opt_wordlist v => Some v | _ => None end.

Definition mask_of (o : cli_opt) : option pystr :=
  match o with opt_mask v => Some v | _ => None end.

Definition colormask_of (o : cli_opt) : option pystr :=
  match o with opt_colormask v => Some v | _ => None end.

(** [f] is the stream that the argument [arg] of a file option denotes in
    a run of the parser that started in [w0]: the standard input for
    ["-"], a stream opened during the run for another argument, and the
    default [dflt] without an argument. *)
Definition denotes (w0 : world) (arg : option pystr) (dflt f : option nat)
  : Prop :=
  match arg with
  | None => f = dflt
  | Some v =>
      if decide (v = str "-") then f = Some stdin
      else exists h, f = Some h /\ (length (streams w0) <= h)%nat
  end.

(** The streams of the other readable file options. *)
Definition other_stream {host} (ns : Namespace host) (h : nat) : Prop :=
  ns_wordlist ns = Some h \/ ns_stopwords ns = Some h
  \/ ns_mask ns = Some h \/ ns_colormask ns = Some h.

(** The streams of the readable file options are streams of the world,
    and the text stream is none of the others unless it is the standard
    input. *)
Definition text_apart {host} (ns : Namespace host) (w : world) : Prop :=
  (ns_text ns < length (streams w))%nat /\
  forall h, other_stream ns h ->
    (h < length (streams w))%nat /\ (h = ns_text ns -> h = stdin).

(** [n] is what [int] makes of the argument, or the default without one. *)
Definition converts (arg : option pystr) (dflt n : Z) : Prop :=
  match arg with
  | Some v => Py.int v = Some n
  | None => n = dflt
  end.

(** ** Worlds, continued *)
Definition is_closed (w : world) (f : nat) : Prop :=
  exists st, streams w !! f = Some st /\ closed st = true.

Definition is_open (w : world) (f : nat) : Prop :=
  exists st, streams w !! f = Some st /\ closed st = false.

Definition stays_closed (f : nat) (w w' : world) : Prop :=
  is_closed w f -> is_closed w' f.

Definition keeps_stream (f : nat) (w w' : world) : Prop :=
  is_Some (streams w !! f) -> is_Some (streams w' !! f).

(** The trace grew by events that all satisfy [P]. *)
Definition events_only (P : event -> Prop) (w w' : world) : Prop :=
  exists evs, trace w' = trace w ++ evs /\ Forall P evs.

(** Every run of [m] relates the world it starts in to the one it leaves. *)
Definition runs_in {A} (R : world -> world -> Prop) (m : M A) : Prop :=
  forall w w' r, m w = (w', r) -> R w w'.

(** The events of [parse_args] after the parser: nothing is opened, the
    streams read are those of [read_streams], the streams closed are the
    input and the stopwords. *)
Definition resolve_event {host} (ns : Namespace host) (ev : event) : Prop :=
  match ev with
  | EvOpen _ _ _ => False
  | EvRead h => h ∈ read_streams ns
  | EvClose h => h = input_stream ns \/ ns_stopwords ns = Some h
  end.

(** ** The statements of [parse_args] one by one

    [resolve] is the sequence of these, after its check (lemma
    [resolve_stages]); they serve to reason about one statement at a
    time. *)
Section Stages.
Context {host : Host}.

(** Lines 142-154: the wordlist if there is one, the text otherwise. *)
Definition read_input (ns : Namespace host)
  : M (text_value * option (gmap pystr Z)) :=
  match ns_wordlist ns with
  | Some wordlist_file =>
      d <- with_stream wordlist_file
             (content <- read wordlist_file ;;
              lift (parse_wordlist content)) ;;
      ret (TextStream (ns_text ns), Some d)
  | None =>
      s <- with_stream (ns_text ns) (read (ns_text ns)) ;;
      ret (TextContent s, None)
  end.

(** Lines 159-161. *)
Definition read_stopwords (ns : Namespace host) : M (option (gset pystr)) :=
  match ns_stopwords ns with
  | Some f =>
      content <- with_stream f (read f) ;; ret (Some (stopword_set content))
  | None => ret None
  end.

(** Lines 163-164. *)
Definition read_mask (ns : Namespace host) : M (option (Pixels host)) :=
  match ns_mask ns with
  | Some f => image <- load_image f ;; ret (Some image)
  | None => ret None
  end.

(** Lines 166-169. *)
Definition mask_color_func (ns : Namespace host) : M (ColorFunction host) :=
  match ns_colormask ns with
  | Some f =>
      image <- load_image f ;;
      if image_colors_ok host image then ret (ImageColorGenerator image)
      else raise (CollaboratorError (str "ImageColorGenerator"))
  | None => ret random_color_func
  end.

(** Lines 171-172. *)
Definition single_color_func (ns : Namespace host) (cf : ColorFunction host)
  : M (ColorFunction host) :=
  if truthy_str (ns_color ns) then
    let c := default [] (ns_color ns) in
    if single_color_ok host c then ret (get_single_color_func c)
    else raise (CollaboratorError (str "get_single_color_func"))
  else ret cf.

(** The attributes as the statements leave them (lines 156-157, 174-177
    among them). *)
Definition build_args (ns : Namespace host)
    (input : text_value * option (gmap pystr Z))
    (stop : option (gset pystr)) (mask_array : option (Pixels host))
    (cf : ColorFunction host) : Args host :=
  {| text := input.1; stopwords := stop; wordlist := input.2;
     colormode := ns_colormode ns; imagefile := ns_imagefile ns;
     font_path := ns_font_path ns; mask := mask_array;
     colormask := ns_colormask ns;
     relative_scaling := ns_relative_scaling ns;
     margin := ns_margin ns; width := ns_width ns;
     height := ns_height ns; color := ns_color ns;
     background_color := normalize_background (ns_background_color ns);
     no_collocations := ns_no_collocations ns;
     collocations := negb (ns_no_collocations ns);
     color_func := cf |}.

(** Lines 142-177. *)
Definition stages (ns : Namespace host) : M (Args host) :=
  input <- read_input ns ;;
  stop <- read_stopwords ns ;;
  mask_array <- read_mask ns ;;
  cf <- mask_color_func ns ;;
  cf <- single_color_func ns cf ;;
  ret (build_args ns input stop mask_array cf).
End Stages.

(** * The runtime primitives: evaluations and facts *)

Example strip_ex : Py.strip (str "  a;3 " ++ [0x0A]) = str "a;3".
Proof. reflexivity. Qed.

Example split_ex : Py.split 0x3B (str "a;3;x") = [str "a"; str "3"; str "x"].
Proof. reflexivity. Qed.

Example split_nosep_ex : Py.split 0x3B (str "badline") = [str "badline"].
Proof. reflexivity. Qed.

Example readlines_ex :
  Py.readlines
    (Py.universal_newlines
       (str "a" ++ [0x0D; 0x0A] ++ str "b" ++ [0x0D] ++ str "c"))
  = [str "a" ++ [0x0A]; str "b" ++ [0x0A]; str "c"]
  /\ Py.readlines (str "a" ++ [0x0D; 0x0A] ++ str "b" ++ [0x0D] ++ str "c")
    = [str "a" ++ [0x0D; 0x0A]; str "b" ++ [0x0D] ++ str "c"].
Proof. split; reflexivity. Qed.

Example int_ex :
  Py.int (str " 12 ") = Some 12%Z /\ Py.int (str "-3") = Some (-3)%Z
  /\ Py.int (str "1_000") = Some 1000%Z /\ Py.int (str "1__0") = None
  /\ Py.int (str "_1") = None /\ Py.int (str "1_") = None
  /\ Py.int (str "+ 1") = None /\ Py.int (str "") = None
  /\ Py.int (str "x") = None /\ Py.int [0x661; 0x662] = Some 12%Z
  /\ Py.int [0x1C; 0x31] = None /\ Py.int [0xA0; 0x31] = Some 1%Z.
Proof. repeat split; reflexivity. Qed.

Module PyFacts.
Import Py.

Lemma lstrip_app a b :
  lstrip (a ++ b) = match lstrip a with [] => lstrip b | _ => lstrip a ++ b end.
Proof.
  induction a as [|c a IH]; [done|]. cbn. destruct (isspace c); done.
Qed.

Lemma lstrip_idem s : lstrip (lstrip s) = lstrip s.
Proof.
  induction s as [|c s IH]; [done|]. cbn. destruct (isspace c) eqn:E; [done|].
  cbn. by rewrite E.
Qed.

Lemma clean_head_lstrip s : clean_head (lstrip s).
Proof.
  induction s as [|c s IH]; [done|]. cbn. by destruct (isspace c) eqn:E.
Qed.

Lemma lstrip_clean s : clean_head s -> lstrip s = s.
Proof. destruct s as [|c s]; [done|]. cbn. by intros ->. Qed.

Lemma rstrip_cons c s :
  rstrip (c :: s) =
    match rstrip s with
    | [] => if isspace c then [] else [c]
    | _ => c :: rstrip s
    end.
Proof.
  unfold rstrip. rewrite reverse_cons, lstrip_app.
  destruct (lstrip (reverse s)) as [|d t] eqn:E.
  - cbn. by destruct (isspace c).
  - rewrite reverse_app, reverse_singleton.
    destruct (reverse (d :: t)) eqn:E2; [|done].
    apply (f_equal reverse) in E2. by rewrite reverse_involutive in E2.
Qed.

Lemma clean_head_rstrip s : clean_head s -> clean_head (rstrip s).
Proof.
  destruct s as [|c s]; [done|]. intros E. cbn in E. rewrite rstrip_cons.
  destruct (rstrip s); cbn; by rewrite ?E.
Qed.

Lemma clean_head_strip s : clean_head (strip s).
Proof. apply clean_head_rstrip, clean_head_lstrip. Qed.

Lemma rstrip_idem s : rstrip (rstrip s) = rstrip s.
Proof. unfold rstrip. by rewrite reverse_involutive, lstrip_idem. Qed.

Lemma strip_idem s : strip (strip s) = strip s.
Proof.
  unfold strip at 1. rewrite (lstrip_clean (strip s)) by apply clean_head_strip.
  unfold strip. apply rstrip_idem.
Qed.

(** [split]: the fields that follow the first one exist exactly when the
    separator occurs. *)
Lemma split_from_no_sep sep cur s :
  sep ∉ s -> split_from sep cur s = [cur ++ s].
Proof.
  revert cur. induction s as [|c s IH]; intros cur Hs; cbn.
  - by rewrite app_nil_r.
  - apply not_elem_of_cons in Hs as [Hc Hs].
    destruct (N.eqb_spec c sep); [done|].
    rewrite IH by done. by rewrite <- app_assoc.
Qed.

Lemma split_from_length sep cur s : (1 <= length (split_from sep cur s))%nat.
Proof.
  revert cur. induction s as [|c s IH]; intros cur; cbn; [lia|].
  destruct (c =? sep); cbn; [lia | apply IH].
Qed.

Lemma split_from_sep sep cur s :
  sep ∈ s -> (2 <= length (split_from sep cur s))%nat.
Proof.
  revert cur. induction s as [|c s IH]; intros cur Hs;
    [by apply elem_of_nil in Hs|].
  cbn. destruct (N.eqb_spec c sep) as [->|Hne].
  - cbn. pose proof (split_from_length sep [] s). lia.
  - apply IH. apply elem_of_cons in Hs as [?|?]; congruence.
Qed.

Lemma split_second_None sep s : split sep s !! 1%nat = None <-> sep ∉ s.
Proof.
  unfold split. split.
  - intros H Hs. apply lookup_ge_None in H.
    pose proof (split_from_sep sep [] s Hs). lia.
  - intros Hs. by rewrite split_from_no_sep.
Qed.

Lemma split_from_head sep cur s :
  exists k, head (split_from sep cur s) = Some (cur ++ k) /\
    head k = match s with
             | c :: _ => if c =? sep then None else Some c
             | [] => None
             end.
Proof.
  revert cur. induction s as [|c s IH]; intros cur; cbn.
  - exists []. by rewrite app_nil_r.
  - destruct (N.eqb_spec c sep) as [->|Hne].
    + exists []. by rewrite app_nil_r.
    + destruct (IH (cur ++ [c])) as (k & Hk & _). exists (c :: k).
      by rewrite Hk, <- app_assoc.
Qed.

Lemma split_head_clean sep s :
  clean_head s -> clean_head (default [] (head (split sep s))).
Proof.
  intros Hs. unfold split.
  destruct (split_from_head sep [] s) as (k & -> & Hk). cbn.
  destruct s as [|c s], k as [|d k]; try done.
  cbn in Hk. destruct (c =? sep); by simplify_eq/=.
Qed.

(** [int]: a negative value needs a minus sign. *)
Lemma to_ascii_no_minus s : 0x2D ∉ s -> 0x2D ∉ to_ascii s.
Proof.
  induction s as [|ch s IH]; [done|]. intros [Hc Hs]%not_elem_of_cons.
  cbn [to_ascii]. destruct (ch <? 127); [by apply not_elem_of_cons; auto|].
  destruct (isspace ch).
  { apply not_elem_of_cons; split; [done | auto]. }
  destruct (todecimal ch) as [d|].
  - apply not_elem_of_cons; split; [lia | auto].
  - by apply not_elem_of_cons; split; [|apply not_elem_of_nil].
Qed.

Lemma skip_c_space_suffix s : skip_c_space s `suffix_of` s.
Proof.
  induction s as [|c s IH]; [done|]. cbn.
  destruct (c_isspace c); [by apply suffix_cons_r | done].
Qed.

Lemma scan_digits_nonneg s : forall prev_us seen acc v r,
  (0 <= acc)%Z -> scan_digits prev_us seen acc s = Some (v, r) -> (0 <= v)%Z.
Proof.
  induction s as [|c s IH]; intros prev_us seen acc v r Hacc; cbn.
  - destruct prev_us, seen; naive_solver.
  - destruct (is_ascii_digit c).
    { apply IH. lia. }
    destruct (c =? 0x5F).
    { destruct prev_us; [done|]. by apply IH. }
    destruct prev_us, seen; naive_solver.
Qed.

Lemma long_from_string_nonneg s n :
  0x2D ∉ s -> long_from_string s = Some n -> (0 <= n)%Z.
Proof.
  intros Hs. unfold long_from_string.
  assert (0x2D ∉ skip_c_space s) as Hs'.
  { intros H. apply Hs.
    eapply elem_of_suffix; [done | apply skip_c_space_suffix]. }
  destruct (skip_c_space s) as [|c t] eqn:E; [done|].
  assert (forall u, match u with
                    | [] => None
                    | c0 :: _ => if c0 =? 0x5F then None else
                        match scan_digits false false 0 u with
                        | Some (v, r) => match skip_c_space r with
                                         | [] => Some (1 * v)%Z
                                         | _ => None
                                         end
                        | None => None
                        end
                    end = Some n -> (0 <= n)%Z) as Hpos.
  { intros [|c0 u]; [done|]. destruct (c0 =? 0x5F); [done|].
    destruct (scan_digits _ _ _ _) as [[v r]|] eqn:Es; [|done].
    destruct (skip_c_space r); [|done]. intros [= <-].
    apply scan_digits_nonneg in Es; lia. }
  destruct (N.eqb_spec c 0x2B); [apply (Hpos t)|].
  destruct (N.eqb_spec c 0x2D) as [->|]; [|apply (Hpos (c :: t))].
  exfalso. apply Hs'. by left.
Qed.

Lemma int_nonneg s n : 0x2D ∉ s -> int s = Some n -> (0 <= n)%Z.
Proof. intros Hs. apply long_from_string_nonneg, to_ascii_no_minus, Hs. Qed.

(** [dict]: the last pair of a key decides. *)
Lemma dict_snoc {V} (pairs : list (pystr * V)) k v :
  dict (pairs ++ [(k, v)]) = <[k := v]> (dict pairs).
Proof. unfold dict. by rewrite foldl_snoc. Qed.

Lemma dict_last {V} (pre post : list (pystr * V)) k v :
  k ∉ post.*1 -> dict (pre ++ (k, v) :: post) !! k = Some v.
Proof.
  induction post as [|[k' v'] post IH] using rev_ind; intros Hk.
  - by rewrite dict_snoc, lookup_insert_eq.
  - rewrite fmap_app, not_elem_of_app in Hk. destruct Hk as [Hk Hk'].
    rewrite app_comm_cons, app_assoc, dict_snoc.
    rewrite lookup_insert_ne; [by apply IH|]. set_solver.
Qed.

Lemma dict_lookup_Some {V} (pairs : list (pystr * V)) k v :
  dict pairs !! k = Some v -> (k, v) ∈ pairs.
Proof.
  induction pairs as [|[k' v'] pairs IH] using rev_ind; [done|].
  rewrite dict_snoc, lookup_insert. case_decide; set_solver.
Qed.

End PyFacts.

(** * The wordlist loop *)

Section Wordlist.
Implicit Types (line : pystr) (lines : list pystr) (acc : list (pystr * Z)).

Lemma wordlist_loop_cons line lines acc :
  wordlist_loop (line :: lines) acc =
    match Py.strip line with
    | [] => wordlist_loop lines acc
    | _ =>
        match Py.split 0x3B (Py.strip line) !! 1%nat with
        | None => Raise IndexError
        | Some count =>
            match Py.int count with
            | None => Raise (ValueError (MsgInvalidLiteral count))
            | Some n =>
                wordlist_loop lines
                  (acc ++ [(default []
                              (head (Py.split 0x3B (Py.strip line))), n)])
            end
        end
    end.
Proof. cbn [wordlist_loop]. by destruct (Py.strip line). Qed.

Lemma wordlist_loop_blank line lines acc :
  Py.strip line = [] ->
  wordlist_loop (line :: lines) acc = wordlist_loop lines acc.
Proof. intros E. by rewrite wordlist_loop_cons, E. Qed.

Lemma wordlist_loop_good line lines acc :
  line_ok line ->
  wordlist_loop (line :: lines) acc =
    wordlist_loop lines (acc ++ option_list (line_pair line)).
Proof.
  rewrite wordlist_loop_cons. unfold line_pair.
  intros [E | (count & n & E1 & E2)].
  - rewrite E. cbn. by rewrite app_nil_r.
  - destruct (Py.strip line) as [|c0 s0] eqn:E; [cbn; by rewrite app_nil_r|].
    rewrite E1. cbn. by rewrite E2.
Qed.

Lemma wordlist_loop_bad line lines acc :
  ~ line_ok line -> wordlist_loop (line :: lines) acc = Raise (line_error line).
Proof.
  rewrite wordlist_loop_cons. unfold line_ok, line_error. intros Hbad.
  destruct (Py.strip line) as [|c0 s0] eqn:E; [by destruct Hbad; left|].
  destruct (_ !! 1%nat) as [count|] eqn:E1; [|done].
  destruct (Py.int count) as [n|] eqn:E2; [|done].
  destruct Hbad. right. eauto.
Qed.

Lemma line_ok_dec line : line_ok line \/ ~ line_ok line.
Proof.
  unfold line_ok. destruct (Py.strip line) as [|c0 s0] eqn:E; [by left; left|].
  destruct (_ !! 1%nat) as [count|] eqn:E1; [|right; naive_solver].
  destruct (Py.int count) as [n|] eqn:E2; [left|right]; naive_solver.
Qed.

Lemma wordlist_loop_Ok lines : forall acc,
  Forall line_ok lines ->
  wordlist_loop lines acc = Ok (acc ++ omap line_pair lines).
Proof.
  induction lines as [|line lines IH]; intros acc Hok.
  - cbn. by rewrite app_nil_r.
  - apply Forall_cons in Hok as [H1 H2].
    rewrite wordlist_loop_good, IH by done. cbn [omap list_omap].
    destruct (line_pair line); cbn; by rewrite <- ?app_assoc, ?app_nil_r.
Qed.

Lemma wordlist_loop_Raise good bad more : forall acc,
  Forall line_ok good -> ~ line_ok bad ->
  wordlist_loop (good ++ bad :: more) acc = Raise (line_error bad).
Proof.
  induction good as [|line good IH]; intros acc Hok Hbad.
  - by apply wordlist_loop_bad.
  - apply Forall_cons in Hok as [H1 H2]. cbn [app].
    rewrite wordlist_loop_good by done. by apply IH.
Qed.

Lemma wordlist_loop_Ok_inv lines : forall acc wl,
  wordlist_loop lines acc = Ok wl -> Forall line_ok lines.
Proof.
  induction lines as [|line lines IH]; intros acc wl H; [constructor|].
  destruct (line_ok_dec line) as [Hl|Hl].
  - rewrite wordlist_loop_good in H by done. constructor; eauto.
  - by rewrite wordlist_loop_bad in H.
Qed.

Lemma parse_wordlist_Ok content d :
  parse_wordlist content = Ok d ->
  Forall line_ok (Py.readlines content) /\
  d = Py.dict (omap line_pair (Py.readlines content)).
Proof.
  unfold parse_wordlist.
  destruct (wordlist_loop _ _) as [wl|e] eqn:E; [|done]. intros [= <-].
  pose proof (wordlist_loop_Ok_inv _ _ _ E) as Hok. split; [done|].
  rewrite wordlist_loop_Ok in E by done. by injection E as <-.
Qed.

Lemma strip_nil_iff line :
  (length (Py.strip line) =? 0)%nat = true <-> Py.strip line = [].
Proof. destruct (Py.strip line); naive_solver. Qed.

Lemma line_pair_strip line : line_pair (Py.strip line) = line_pair line.
Proof. unfold line_pair. by rewrite PyFacts.strip_idem. Qed.

Lemma line_ok_strip line : line_ok (Py.strip line) <-> line_ok line.
Proof. unfold line_ok. by rewrite PyFacts.strip_idem. Qed.

Lemma wordlist_loop_strip lines : forall acc,
  wordlist_loop (Py.strip <$> lines) acc = wordlist_loop lines acc.
Proof.
  induction lines as [|line lines IH]; intros acc; [done|].
  rewrite fmap_cons, !wordlist_loop_cons, PyFacts.strip_idem.
  destruct (Py.strip line); [done|].
  destruct (_ !! 1%nat); [|done]. by destruct (Py.int _).
Qed.

Lemma line_pair_clean line k n :
  line_pair line = Some (k, n) -> Py.lstrip k = k.
Proof.
  unfold line_pair. destruct (Py.strip line) as [|c0 s0] eqn:E; [done|].
  rewrite <- E.
  destruct (_ !! 1%nat) as [count|]; [|done]. cbn.
  destruct (Py.int count); [|done]. cbn. intros [= <- <-].
  apply PyFacts.lstrip_clean, PyFacts.split_head_clean,
    PyFacts.clean_head_strip.
Qed.
End Wordlist.

Lemma filter_key_absent {V} (l : list (pystr * V)) w :
  w ∉ l.*1 -> filter (fun kv => kv.1 = w) l = [].
Proof.
  induction l as [|[k v] l IH]; [done|].
  rewrite fmap_cons, not_elem_of_cons. cbn [fst]. intros [Hk Hl].
  rewrite filter_cons_False by (cbn; congruence). by apply IH.
Qed.

Lemma filter_key_unique {V} (l : list (pystr * V)) w c :
  NoDup l.*1 -> (w, c) ∈ l -> filter (fun kv => kv.1 = w) l = [(w, c)].
Proof.
  induction l as [|[k v] l IH]; [by intros _ ?%elem_of_nil|].
  rewrite fmap_cons, NoDup_cons, elem_of_cons. cbn [fst].
  intros [Hk Hnd] [[= <- <-]|Hin].
  - rewrite filter_cons_True by done. f_equal. by apply filter_key_absent.
  - rewrite filter_cons_False; [by apply IH|]. cbn. intros ->.
    apply Hk, list_elem_of_fmap. by exists (w, c).
Qed.


(** * Reasoning about runs *)

Lemma bind_Ok {A B} (m : M A) (k : A -> M B) w w' b :
  bind m k w = (w', Ok b) ->
  exists a w1, m w = (w1, Ok a) /\ k a w1 = (w', Ok b).
Proof.
  unfold bind. destruct (m w) as [w1 [a|e]]; [eauto | discriminate].
Qed.

Lemma bind_Raise {A B} (m : M A) (k : A -> M B) w w' e :
  bind m k w = (w', Raise e) ->
  m w = (w', Raise e) \/
  exists a w1, m w = (w1, Ok a) /\ k a w1 = (w', Raise e).
Proof.
  unfold bind. destruct (m w) as [w1 [a|e1]]; [eauto | left; congruence].
Qed.

Lemma bind_eq_Ok {A B} (m : M A) (k : A -> M B) w w1 a :
  m w = (w1, Ok a) -> bind m k w = k a w1.
Proof. unfold bind. by intros ->. Qed.

Lemma bind_eq_Raise {A B} (m : M A) (k : A -> M B) w w1 e :
  m w = (w1, Raise e) -> bind m k w = (w1, Raise e).
Proof. unfold bind. by intros ->. Qed.


(** * The option parser *)

Section Parser.
Context {host : Host}.
Implicit Types (ns : Namespace host) (w : world) (o : cli_opt).

Ltac run_option :=
  repeat (simplify_eq;
          match goal with
          | H : context [decide ?P] |- _ => destruct (decide P)
          | H : context [match ?x with _ => _ end] |- _ => destruct x eqn:?
          end);
  simplify_eq; simpl.

Ltac unfold_option :=
  cbn -[str];
  unfold bind, get_value, FileType_call, argparse_FileType_call, int_type,
    float_type, ret, raise.

Lemma take_option_no_collocations o ns w w' ns' :
  take_option o ns w = (w', Ok ns') ->
  ns_no_collocations ns' =
    ns_no_collocations ns || bool_decide (o = opt_no_collocations).
Proof.
  destruct o; unfold_option; intros H; run_option;
    try (by rewrite orb_false_r); by rewrite orb_true_r.
Qed.

Lemma take_option_background o ns w w' ns' :
  take_option o ns w = (w', Ok ns') ->
  ns_background_color ns' = background_argument [o] (ns_background_color ns).
Proof.
  destruct o; unfold_option; intros H; run_option; done.
Qed.

Lemma consume_args_no_collocations arguments : forall ns w w' ns',
  consume_args arguments ns w = (w', Ok ns') ->
  ns_no_collocations ns' =
    ns_no_collocations ns || bool_decide (opt_no_collocations ∈ arguments).
Proof.
  induction arguments as [|o more IH]; intros ns w w' ns' H.
  - cbn in H. injection H as Hw Hns; subst. by rewrite orb_false_r.
  - cbn [consume_args] in H. apply bind_Ok in H as (ns1 & w1 & H1 & H2).
    rewrite (IH _ _ _ _ H2), (take_option_no_collocations _ _ _ _ _ H1).
    rewrite <- orb_assoc. f_equal.
    apply eq_bool_prop_intro.
    rewrite orb_True, !bool_decide_spec, elem_of_cons. naive_solver.
Qed.

Lemma consume_args_background arguments : forall ns w w' ns',
  consume_args arguments ns w = (w', Ok ns') ->
  ns_background_color ns' =
    background_argument arguments (ns_background_color ns).
Proof.
  induction arguments as [|o more IH]; intros ns w w' ns' H.
  - cbn in H. injection H as Hw Hns; by subst.
  - cbn [consume_args] in H. apply bind_Ok in H as (ns1 & w1 & H1 & H2).
    rewrite (IH _ _ _ _ H2), (take_option_background _ _ _ _ _ H1). done.
Qed.

Lemma only_opens_refl w : only_opens w w.
Proof. exists [], []. by rewrite !app_nil_r. Qed.

Lemma only_opens_trans w1 w2 w3 :
  only_opens w1 w2 -> only_opens w2 w3 -> only_opens w1 w3.
Proof.
  intros (n1 & e1 & S1 & T1 & F1) (n2 & e2 & S2 & T2 & F2).
  exists (n1 ++ n2), (e1 ++ e2).
  rewrite S2, S1, T2, T1, !app_assoc. split_and!; [done..|].
  by apply Forall_app.
Qed.

Lemma new_stream_only_opens p m c w w' f :
  new_stream p m c w = (w', Ok f) ->
  only_opens w w' /\ f = length (streams w) /\ EvOpen p m f ∈ trace w'.
Proof.
  unfold new_stream. intros [= <- <-]. split_and!; [|done|].
  - eexists _, _. split_and!; [done..|]. repeat constructor. eauto.
  - cbn. set_solver.
Qed.

Lemma new_stream_opens p m c w w' r :
  new_stream p m c w = (w', r) -> only_opens w w'.
Proof.
  unfold new_stream. intros [= <- <-].
  eexists _, _. split_and!; [done..|]. repeat constructor. eauto.
Qed.

Lemma take_option_only_opens o ns w w' r :
  take_option o ns w = (w', r) -> only_opens w w'.
Proof.
  destruct o; unfold_option; intros H; run_option;
    eauto using only_opens_refl, new_stream_opens.
Qed.

Lemma consume_args_only_opens arguments : forall ns w w' r,
  consume_args arguments ns w = (w', r) -> only_opens w w'.
Proof.
  induction arguments as [|o more IH]; intros ns w w' r H.
  - cbn in H. injection H as Hw Hns; subst. apply only_opens_refl.
  - cbn [consume_args] in H. unfold bind in H.
    destruct (take_option o ns w) as [w1 [ns1|e]] eqn:E.
    + eapply only_opens_trans;
        [by eapply take_option_only_opens | by eapply IH].
    + simplify_eq. by eapply take_option_only_opens.
Qed.

Lemma only_opens_trace w w' ev :
  only_opens w w' -> ev ∈ trace w -> ev ∈ trace w'.
Proof. intros (new & evs & _ & -> & _) H. set_solver. Qed.

Lemma only_opens_read w w' h :
  only_opens w w' -> EvRead h ∈ trace w' -> EvRead h ∈ trace w.
Proof.
  intros (new & evs & _ & -> & Hevs) [H|H]%elem_of_app; [done|].
  rewrite Forall_forall in Hevs. by destruct (Hevs _ H) as (? & ? & ? & ?).
Qed.

Lemma take_option_color o ns w w' ns' :
  take_option o ns w = (w', Ok ns') ->
  ns_color ns' = color_argument [o] (ns_color ns).
Proof. destruct o; unfold_option; intros H; run_option; done. Qed.

Lemma consume_args_color arguments : forall ns w w' ns',
  consume_args arguments ns w = (w', Ok ns') ->
  ns_color ns' = color_argument arguments (ns_color ns).
Proof.
  induction arguments as [|o more IH]; intros ns w w' ns' H.
  - cbn in H. injection H as Hw Hns; by subst.
  - cbn [consume_args] in H. apply bind_Ok in H as (ns1 & w1 & H1 & H2).
    rewrite (IH _ _ _ _ H2), (take_option_color _ _ _ _ _ H1). done.
Qed.

Lemma opened_rb_mono w w' f :
  only_opens w w' -> opened_rb w f -> opened_rb w' f.
Proof.
  intros Hw [->|[path H]]; [by left|]. right. exists path.
  by eapply only_opens_trace.
Qed.

Lemma take_option_colormask o ns w w' ns' :
  take_option o ns w = (w', Ok ns') ->
  match o with
  | opt_colormask _ => exists f, ns_colormask ns' = Some f /\ opened_rb w' f
  | _ => ns_colormask ns' = ns_colormask ns
  end.
Proof.
  destruct o; unfold_option; intros H; run_option; try done.
  - eexists; split; [done|]. by left.
  - match goal with H : new_stream _ _ _ _ = _ |- _ =>
      apply new_stream_only_opens in H as (_ & _ & H) end.
    eexists; split; [done|]. right. eauto.
Qed.

Lemma consume_args_colormask arguments : forall ns w w' ns',
  consume_args arguments ns w = (w', Ok ns') ->
  (supplied_colormask arguments ->
   exists f, ns_colormask ns' = Some f /\ opened_rb w' f)
  /\ (~ supplied_colormask arguments -> ns_colormask ns' = ns_colormask ns)
  /\ (forall f, ns_colormask ns = Some f -> opened_rb w f ->
      exists f', ns_colormask ns' = Some f' /\ opened_rb w' f').
Proof.
  unfold supplied_colormask.
  induction arguments as [|o more IH]; intros ns w w' ns' H.
  - cbn in H. injection H as Hw Hns; subst. split_and!; [|done|by eauto].
    by intros [? ?%elem_of_nil].
  - cbn [consume_args] in H. apply bind_Ok in H as (ns1 & w1 & H1 & H2).
    destruct (IH _ _ _ _ H2) as (IH1 & IH2 & IH3).
    pose proof (take_option_colormask _ _ _ _ _ H1) as Ho.
    pose proof (take_option_only_opens _ _ _ _ _ H1) as Hw.
    split_and!.
    + intros [path [<-|Hin]%elem_of_cons]; [|by eauto].
      destruct Ho as (f & Hf & Hop). eauto.
    + intros Hno.
      rewrite IH2 by (intros [path ?]; apply Hno; exists path; by right).
      destruct o; try done. destruct Hno. eexists. by left.
    + intros f Hf Hop. destruct o; try (rewrite <- Ho in Hf);
        eauto using opened_rb_mono.
      destruct Ho as (f1 & Hf1 & Hop1). eauto.
Qed.

Lemma take_option_wordlist o ns w w' ns' :
  take_option o ns w = (w', Ok ns') ->
  match o with
  | opt_wordlist _ => is_Some (ns_wordlist ns')
  | _ => ns_wordlist ns' = ns_wordlist ns
  end.
Proof. destruct o; unfold_option; intros H; run_option; by eauto. Qed.

Lemma consume_args_wordlist arguments : forall ns w w' ns',
  consume_args arguments ns w = (w', Ok ns') ->
  (supplied_wordlist arguments \/ is_Some (ns_wordlist ns) ->
   is_Some (ns_wordlist ns'))
  /\ (~ supplied_wordlist arguments -> ns_wordlist ns' = ns_wordlist ns).
Proof.
  unfold supplied_wordlist.
  induction arguments as [|o more IH]; intros ns w w' ns' H.
  - cbn in H. injection H as Hw Hns; subst. split; [|done].
    by intros [[? ?%elem_of_nil]|?].
  - cbn [consume_args] in H. apply bind_Ok in H as (ns1 & w1 & H1 & H2).
    destruct (IH _ _ _ _ H2) as (IH1 & IH2).
    pose proof (take_option_wordlist _ _ _ _ _ H1) as Ho.
    split.
    + intros [[path [<-|Hin]%elem_of_cons]|Hs]; [by eauto|by eauto|].
      apply IH1. right. destruct o; try (by rewrite Ho). done.
    + intros Hno.
      rewrite IH2 by (intros [path ?]; apply Hno; exists path; by right).
      destruct o; try done. destruct Hno. eexists. by left.
Qed.
(** The streams that the file options denote. *)
Lemma new_stream_length p m c w w' f :
  new_stream p m c w = (w', Ok f) ->
  f = length (streams w) /\ length (streams w') = S (length (streams w)).
Proof.
  unfold new_stream. intros [= <- <-]. cbn. split; [done|].
  rewrite length_app. cbn. lia.
Qed.

Lemma take_option_length o ns w w' (r : result (Namespace host)) :
  take_option o ns w = (w', r) ->
  (length (streams w) <= length (streams w'))%nat.
Proof.
  intros (new & evs & -> & _)%take_option_only_opens.
  rewrite length_app. lia.
Qed.

Lemma take_option_text_apart o ns w w' ns' :
  take_option o ns w = (w', Ok ns') ->
  text_apart ns w -> text_apart ns' w'.
Proof.
  unfold text_apart, other_stream.
  destruct o; unfold_option; intros H [Ht Ho]; run_option;
    try match goal with H : new_stream _ _ _ _ = _ |- _ =>
      apply new_stream_length in H as [-> ->] end;
    try done; unfold stdin in *; (split; [lia|]);
    intros h [Hh|[Hh|[Hh|Hh]]];
    first [ injection Hh as <-; split; lia
          | destruct (Ho h ltac:(tauto)) as [? ?]; split; [lia|];
            first [done | lia] ].
Qed.

Lemma consume_args_text_apart arguments : forall ns w w' ns',
  consume_args arguments ns w = (w', Ok ns') ->
  text_apart ns w -> text_apart ns' w'.
Proof.
  induction arguments as [|o more IH]; intros ns w w' ns' H Hinv.
  - cbn in H. injection H as Hw Hns; by subst.
  - cbn [consume_args] in H. apply bind_Ok in H as (ns1 & w1 & H1 & H2).
    eapply IH; [done|]. by eapply take_option_text_apart.
Qed.

Lemma text_apart_defaults w :
  is_Some (streams w !! stdin) -> text_apart (host:=host) defaults w.
Proof.
  intros H%lookup_lt_is_Some. split; [done|].
  by intros h [?|[?|[?|?]]].
Qed.

Lemma consume_args_denotes sel (proj : Namespace host -> option nat) :
  (forall o ns w w' ns',
      take_option o ns w = (w', Ok ns') ->
      match sel o with
      | Some v =>
          proj ns' = Some (if decide (v = str "-") then stdin
                           else length (streams w))
      | None => proj ns' = proj ns
      end) ->
  forall arguments ns w w' ns' w0 c dflt,
    consume_args arguments ns w = (w', Ok ns') ->
    (length (streams w0) <= length (streams w))%nat ->
    denotes w0 c dflt (proj ns) ->
    denotes w0 (last_argument sel arguments c) dflt (proj ns').
Proof.
  intros Hstep.
  induction arguments as [|o more IH]; intros ns w w' ns' w0 c dflt H Hle Hc.
  - cbn in H. injection H as Hw Hns; by subst.
  - cbn [consume_args] in H. apply bind_Ok in H as (ns1 & w1 & H1 & H2).
    cbn [last_argument foldl].
    eapply (IH _ _ _ _ w0) in H2; [exact H2| |].
    + apply take_option_length in H1. lia.
    + specialize (Hstep _ _ _ _ _ H1). destruct (sel o) as [v|].
      * unfold denotes. rewrite Hstep. destruct (decide _); eauto.
      * by rewrite Hstep.
Qed.

Lemma take_option_text o ns w w' ns' :
  take_option o ns w = (w', Ok ns') ->
  match text_of o with
  | Some v =>
      Some (ns_text ns') = Some (if decide (v = str "-") then stdin
                                 else length (streams w))
  | None => Some (ns_text ns') = Some (ns_text ns)
  end.
Proof.
  destruct o; unfold_option; intros H; run_option; try done;
    match goal with H : new_stream _ _ _ _ = _ |- _ =>
      by apply new_stream_length in H as [-> _] end.
Qed.

Lemma take_option_wordlist_stream o ns w w' ns' :
  take_option o ns w = (w', Ok ns') ->
  match wordlist_of o with
  | Some v =>
      ns_wordlist ns' = Some (if decide (v = str "-") then stdin
                              else length (streams w))
  | None => ns_wordlist ns' = ns_wordlist ns
  end.
Proof.
  destruct o; unfold_option; intros H; run_option; try done;
    match goal with H : new_stream _ _ _ _ = _ |- _ =>
      by apply new_stream_length in H as [-> _] end.
Qed.

Lemma take_option_stopwords_stream o ns w w' ns' :
  take_option o ns w = (w', Ok ns') ->
  match stopwords_of o with
  | Some v =>
      ns_stopwords ns' = Some (if decide (v = str "-") then stdin
                               else length (streams w))
  | None => ns_stopwords ns' = ns_stopwords ns
  end.
Proof.
  destruct o; unfold_option; intros H; run_option; try done;
    match goal with H : new_stream _ _ _ _ = _ |- _ =>
      by apply new_stream_length in H as [-> _] end.
Qed.

Lemma take_option_mask_stream o ns w w' ns' :
  take_option o ns w = (w', Ok ns') ->
  match mask_of o with
  | Some v =>
      ns_mask ns' = Some (if decide (v = str "-") then stdin
                          else length (streams w))
  | None => ns_mask ns' = ns_mask ns
  end.
Proof.
  destruct o; unfold_option; intros H; run_option; try done;
    match goal with H : new_stream _ _ _ _ = _ |- _ =>
      by apply new_stream_length in H as [-> _] end.
Qed.

Lemma take_option_colormask_stream o ns w w' ns' :
  take_option o ns w = (w', Ok ns') ->
  match colormask_of o with
  | Some v =>
      ns_colormask ns' = Some (if decide (v = str "-") then stdin
                               else length (streams w))
  | None => ns_colormask ns' = ns_colormask ns
  end.
Proof.
  destruct o; unfold_option; intros H; run_option; try done;
    match goal with H : new_stream _ _ _ _ = _ |- _ =>
      by apply new_stream_length in H as [-> _] end.
Qed.

(** A stream option whose stream is the standard input was given as [-]
    (or not at all, for the text). *)
Lemma denotes_stdin w0 arg dflt :
  is_Some (streams w0 !! stdin) ->
  denotes w0 arg dflt (Some stdin) ->
  arg = Some (str "-") \/ (arg = None /\ dflt = Some stdin).
Proof.
  intros H%lookup_lt_is_Some. unfold denotes. destruct arg as [v|].
  - destruct (decide _) as [->|]; [by left|].
    intros (h & [= <-] & Hh). unfold stdin in *. lia.
  - intros <-. by right.
Qed.
End Parser.

(** * After the parser *)

Section Resolve.
Context {host : Host}.
Implicit Types (ns : Namespace host) (w : world) (hs : list nat).

Lemma reads_only_refl hs w : reads_only hs w w.
Proof.
  exists []. rewrite app_nil_r. split; [done|]. by intros h ?%elem_of_nil.
Qed.

Lemma reads_only_trans hs w1 w2 w3 :
  reads_only hs w1 w2 -> reads_only hs w2 w3 -> reads_only hs w1 w3.
Proof.
  intros (e1 & T1 & R1) (e2 & T2 & R2). exists (e1 ++ e2).
  rewrite T2, T1, app_assoc. split; [done|].
  intros h [?|?]%elem_of_app; eauto.
Qed.

Lemma reads_only_emit hs ev w :
  (forall h, ev = EvRead h -> h ∈ hs) -> reads_only hs w (emit ev w).
Proof.
  intros H. exists [ev]. split; [done|].
  intros h Hh%list_elem_of_singleton. by apply H.
Qed.

Lemma reads_in_ret {A} hs (a : A) : reads_in hs (ret a).
Proof. intros w w' r [= <- <-]. apply reads_only_refl. Qed.

Lemma reads_in_raise {A} hs e : reads_in hs (raise (A:=A) e).
Proof. intros w w' r [= <- <-]. apply reads_only_refl. Qed.

Lemma reads_in_lift {A} hs (x : result A) : reads_in hs (lift x).
Proof. intros w w' r [= <- <-]. apply reads_only_refl. Qed.

Lemma reads_in_bind {A B} hs (m : M A) (k : A -> M B) :
  reads_in hs m -> (forall a, reads_in hs (k a)) -> reads_in hs (bind m k).
Proof.
  intros Hm Hk w w' r. unfold bind.
  destruct (m w) as [w1 [a|e]] eqn:E.
  - intros H. eapply reads_only_trans; [by eapply Hm | by eapply Hk].
  - intros [= <- <-]. by eapply Hm.
Qed.

Lemma reads_in_read_with hs view h : h ∈ hs -> reads_in hs (read_with view h).
Proof.
  intros Hh w w' r. unfold read_with.
  destruct (streams w !! h) as [st|];
    [|intros [= <- <-]; apply reads_only_refl].
  destruct (closed st); intros [= <- <-]; [apply reads_only_refl|].
  exists [EvRead h]. split; [done|]. by intros h' [= ->]%list_elem_of_singleton.
Qed.

Lemma reads_in_read hs h : h ∈ hs -> reads_in hs (read h).
Proof. apply reads_in_read_with. Qed.

Lemma reads_only_close hs h w : reads_only hs w (close h w).
Proof.
  exists [EvClose h]. split; [done|].
  by intros h' ?%list_elem_of_singleton.
Qed.

Lemma reads_in_with_stream {A} hs h (body : M A) :
  reads_in hs body -> reads_in hs (with_stream h body).
Proof.
  intros Hb w w' r. unfold with_stream.
  destruct (streams w !! h) as [st|];
    [|intros [= <- <-]; apply reads_only_refl].
  destruct (closed st); [intros [= <- <-]; apply reads_only_refl|].
  destruct (body w) as [w1 r1] eqn:E. intros [= <- <-].
  eapply reads_only_trans; [by eapply Hb | apply reads_only_close].
Qed.

Lemma reads_in_load_image hs f :
  f ∈ hs -> reads_in hs (load_image (host:=host) f).
Proof.
  intros Hf. apply reads_in_bind; [by apply reads_in_read_with|].
  intros bytes. destruct (image_array host bytes);
    [apply reads_in_ret | apply reads_in_raise].
Qed.

Lemma resolve_reads ns : reads_in (read_streams ns) (resolve ns).
Proof.
  unfold resolve, read_streams, input_stream.
  destruct (_ && _); [apply reads_in_raise|].
  repeat (apply reads_in_bind; [|intros ?]).
  - destruct (ns_wordlist ns) as [f|]; cbn.
    + apply reads_in_bind; [|intros ?; apply reads_in_ret].
      apply reads_in_with_stream, reads_in_bind;
        [|intros ?; apply reads_in_lift].
      apply reads_in_read. by left.
    + apply reads_in_bind; [|intros ?; apply reads_in_ret].
      apply reads_in_with_stream, reads_in_read. by left.
  - destruct (ns_stopwords ns) as [f|]; [|apply reads_in_ret].
    apply reads_in_bind; [|intros ?; apply reads_in_ret].
    apply reads_in_with_stream, reads_in_read. set_solver.
  - destruct (ns_mask ns) as [f|]; [|apply reads_in_ret].
    apply reads_in_bind; [|intros ?; apply reads_in_ret].
    apply reads_in_load_image. set_solver.
  - destruct (ns_colormask ns) as [f|]; [|apply reads_in_ret].
    apply reads_in_bind.
    + apply reads_in_load_image. set_solver.
    + intros image. destruct (image_colors_ok host image);
        [apply reads_in_ret | apply reads_in_raise].
  - destruct (truthy_str _); [|apply reads_in_ret].
    cbn. destruct (single_color_ok host _); [apply reads_in_ret | apply reads_in_raise].
  - apply reads_in_ret.
Qed.

Lemma with_stream_Ok {A} h (body : M A) w w' a :
  with_stream h body w = (w', Ok a) ->
  exists st w1, streams w !! h = Some st /\ closed st = false /\
                body w = (w1, Ok a) /\ w' = close h w1.
Proof.
  unfold with_stream. destruct (streams w !! h) as [st|]; [|done].
  destruct (closed st) eqn:E; [done|].
  destruct (body w) as [w1 r1] eqn:Eb. intros [= <- ->]. eauto 10.
Qed.

Lemma read_Ok h w w' s :
  read h w = (w', Ok s) ->
  exists st,
    streams w !! h = Some st /\ closed st = false /\ s = delivered st.
Proof.
  unfold read, read_with. destruct (streams w !! h) as [st|]; [|done].
  destruct (closed st) eqn:E; [done|]. intros [= <- <-]. eauto.
Qed.

(** What a successful [resolve] returns. *)
Lemma resolve_Ok ns w w' args :
  resolve ns w = (w', Ok args) ->
  truthy_stream (ns_colormask ns) && truthy_str (ns_color ns) = false /\
  background_color args = normalize_background (ns_background_color ns) /\
  no_collocations args = ns_no_collocations ns /\
  collocations args = negb (ns_no_collocations ns) /\
  color args = ns_color ns /\
  colormask args = ns_colormask ns /\
  match ns_wordlist ns with
  | Some f =>
      exists st d, streams w !! f = Some st /\ closed st = false /\
        parse_wordlist (delivered st) = Ok d /\
        text args = TextStream (ns_text ns) /\ wordlist args = Some d
  | None =>
      exists st, streams w !! ns_text ns = Some st /\ closed st = false /\
        text args = TextContent (delivered st) /\ wordlist args = None
  end /\
  (if truthy_str (ns_color ns)
   then color_func args = get_single_color_func (default [] (ns_color ns))
   else match ns_colormask ns with
        | Some _ => exists image, color_func args = ImageColorGenerator image
        | None => color_func args = random_color_func
        end).
Proof.
  unfold resolve. destruct (_ && _) eqn:Eg; [done|]. intros H.
  apply bind_Ok in H as (input & w1 & Hin & H).
  apply bind_Ok in H as (stop & w2 & Hstop & H).
  apply bind_Ok in H as (mask_array & w3 & Hmask & H).
  apply bind_Ok in H as (cf & w4 & Hcf & H).
  apply bind_Ok in H as (cf' & w5 & Hcf' & H).
  injection H as <- <-. cbn. split_and!; try done.
  - destruct (ns_wordlist ns) as [f|].
    + apply bind_Ok in Hin as (d & w6 & Hd & Hr). injection Hr as <- <-.
      apply with_stream_Ok in Hd as (st & w7 & Hst & Hcl & Hb & ->).
      apply bind_Ok in Hb as (content & w8 & Hrd & Hl).
      apply read_Ok in Hrd as (st' & Hst' & _ & ->).
      injection Hl as _ Hl. simplify_eq. eauto 10.
    + apply bind_Ok in Hin as (s & w6 & Hs & Hr). injection Hr as <- <-.
      apply with_stream_Ok in Hs as (st & w7 & Hst & Hcl & Hb & ->).
      apply read_Ok in Hb as (st' & Hst' & _ & ->). simplify_eq. eauto 10.
  - destruct (truthy_str (ns_color ns)).
    + cbn in Hcf'. destruct (single_color_ok host _); [|done].
      by injection Hcf' as _ <-.
    + injection Hcf' as _ <-. destruct (ns_colormask ns) as [f|].
      * apply bind_Ok in Hcf as (image & w6 & _ & Hcf).
        destruct (image_colors_ok host image); [|done].
        injection Hcf as _ <-. eauto.
      * by injection Hcf as _ <-.
Qed.

Lemma no_plain_ret {A} (a : A) : raises_no_plain (ret a).
Proof. by intros w w' e. Qed.

Lemma no_plain_raise {A} e : ~ plain e -> raises_no_plain (raise (A:=A) e).
Proof. by intros He w w' e' [= <- <-]. Qed.

Lemma no_plain_bind {A B} (m : M A) (k : A -> M B) :
  raises_no_plain m -> (forall a, raises_no_plain (k a)) ->
  raises_no_plain (bind m k).
Proof.
  intros Hm Hk w w' e [H|(a & w1 & _ & H)]%bind_Raise; [by eapply Hm | by eapply Hk].
Qed.

Lemma no_plain_read_with view h : raises_no_plain (read_with view h).
Proof.
  intros w w' e. unfold read_with.
  destruct (streams w !! h) as [st|]; [destruct (closed st)|];
    intros [= <- <-] [t [=]].
Qed.

Lemma no_plain_read h : raises_no_plain (read h).
Proof. apply no_plain_read_with. Qed.

Lemma no_plain_with_stream {A} h (body : M A) :
  raises_no_plain body -> raises_no_plain (with_stream h body).
Proof.
  intros Hb w w' e. unfold with_stream.
  destruct (streams w !! h) as [st|]; [|by intros [= <- <-] [t [=]]].
  destruct (closed st); [by intros [= <- <-] [t [=]]|].
  destruct (body w) as [w1 r1] eqn:E. intros [= <- ->]. by eapply Hb.
Qed.

Lemma no_plain_load_image f : raises_no_plain (load_image (host:=host) f).
Proof.
  apply no_plain_bind; [apply no_plain_read_with|]. intros bytes.
  destruct (image_array host bytes); [apply no_plain_ret|].
  apply no_plain_raise. by intros [t [=]].
Qed.

Lemma wordlist_loop_Raise_inv lines : forall acc e,
  wordlist_loop lines acc = Raise e -> ~ plain e.
Proof.
  induction lines as [|line lines IH]; intros acc e; [done|].
  rewrite wordlist_loop_cons. destruct (Py.strip line); [apply IH|].
  destruct (_ !! 1%nat) as [count|]; [|by intros [= <-] [t [=]]].
  destruct (Py.int count); [apply IH | by intros [= <-] [t [=]]].
Qed.

Lemma no_plain_parse_wordlist content :
  raises_no_plain (lift (parse_wordlist content)).
Proof.
  intros w w' e. unfold lift, parse_wordlist.
  destruct (wordlist_loop _ _) eqn:E; [done|]. intros [= <- <-].
  by eapply wordlist_loop_Raise_inv.
Qed.

Lemma resolve_no_plain ns :
  truthy_stream (ns_colormask ns) && truthy_str (ns_color ns) = false ->
  raises_no_plain (resolve ns).
Proof.
  intros Eg. unfold resolve. rewrite Eg.
  repeat (apply no_plain_bind; [|intros ?]).
  - destruct (ns_wordlist ns) as [f|].
    + apply no_plain_bind; [|intros ?; apply no_plain_ret].
      apply no_plain_with_stream, no_plain_bind; [apply no_plain_read|].
      intros content. apply no_plain_parse_wordlist.
    + apply no_plain_bind; [|intros ?; apply no_plain_ret].
      apply no_plain_with_stream, no_plain_read.
  - destruct (ns_stopwords ns) as [f|]; [|apply no_plain_ret].
    apply no_plain_bind; [|intros ?; apply no_plain_ret].
    apply no_plain_with_stream, no_plain_read.
  - destruct (ns_mask ns) as [f|]; [|apply no_plain_ret].
    apply no_plain_bind; [apply no_plain_load_image|intros ?; apply no_plain_ret].
  - destruct (ns_colormask ns) as [f|]; [|apply no_plain_ret].
    apply no_plain_bind; [apply no_plain_load_image|]. intros image.
    destruct (image_colors_ok host image); [apply no_plain_ret|].
    apply no_plain_raise. by intros [t [=]].
  - destruct (truthy_str _); [|apply no_plain_ret]. cbn.
    destruct (single_color_ok host _); [apply no_plain_ret|].
    apply no_plain_raise. by intros [t [=]].
  - apply no_plain_ret.
Qed.

Lemma resolve_exclusive ns w w' :
  resolve ns w = (w', Raise (ValueError (Msg exclusive_message))) ->
  truthy_stream (ns_colormask ns) && truthy_str (ns_color ns) = true.
Proof.
  destruct (_ && _) eqn:Eg; [done|]. intros H.
  apply resolve_no_plain in H; [|done]. destruct H. by eexists.
Qed.
End Resolve.

(** * The properties of the specification *)

Section Claims.
Context {host : Host}.
Implicit Types (ns : Namespace host) (w : world) (args : Args host).

Lemma parse_args_Ok arguments w w' args :
  parse_args arguments w = (w', Ok args) ->
  exists ns w1, parser_parse_args arguments w = (w1, Ok ns) /\
                resolve ns w1 = (w', Ok args).
Proof. apply bind_Ok. Qed.

(** C1, as the script has it.  When option parsing succeeds, a colour mask
    was given and the fixed colour, as its last occurrence leaves it, is a
    string that is not empty, [parse_args] raises [ValueError] with the
    message "specify either a color mask or a color function" and returns
    no namespace.  The world it leaves is the one the option parser left:
    from the start of the run streams were only opened, nothing was read
    and no image decoded.  The colour-mask stream is among the streams the
    parser produced: it is standard input, or a file whose opening in mode
    [rb] is already in the trace when the check fails. *)
Theorem both_colors_rejected arguments w w1 ns c :
  parser_parse_args arguments w = (w1, Ok ns) ->
  supplied_colormask arguments ->
  color_argument arguments None = Some c -> c <> [] ->
  parse_args (host:=host) arguments w
  = (w1, Raise (ValueError (Msg exclusive_message)))
  /\ only_opens w w1
  /\ exists f, ns_colormask ns = Some f /\ opened_rb w1 f.
Proof.
  intros Hp Hmask Hcolor Hc.
  pose proof (consume_args_only_opens _ _ _ _ _ Hp) as Hw.
  destruct (consume_args_colormask _ _ _ _ _ Hp) as (Hm & _).
  destruct (Hm Hmask) as (f & Hf & Hop).
  apply consume_args_color in Hp as Hcol. cbn [ns_color defaults] in Hcol.
  rewrite Hcolor in Hcol. split_and!; [|done|by eauto].
  unfold parse_args. rewrite (bind_eq_Ok _ _ _ _ _ Hp). unfold resolve.
  rewrite Hf, Hcol. by destruct c.
Qed.

(** C2, as the script has it.  In a world that has a standard input, when
    a wordlist is given and [parse_args] returns, the [wordlist] attribute
    is the mapping parsed from what the wordlist stream held after option
    parsing, the [text] attribute is still the text stream object and
    never a string, and [main] generates from the frequencies.  Option
    parsing reads nothing, and the streams read after it are the wordlist
    stream and, when given, the stopwords, mask and colour-mask streams.
    The text stream is read only when it is one of those, and that is only
    when it is the standard input (the last [--text] is "-", or there is
    none) and "-" is also the last argument of [--wordlist],
    [--stopwords], [--mask] or [--colormask]: a text file opened by its
    path is never read. *)
Theorem wordlist_takes_precedence arguments w w' args :
  is_Some (streams w !! stdin) ->
  supplied_wordlist arguments ->
  parse_args arguments w = (w', Ok args) ->
  exists w1 ns f st d,
    parser_parse_args arguments w = (w1, Ok ns) /\ only_opens w w1 /\
    ns_wordlist ns = Some f /\
    streams w1 !! f = Some st /\ parse_wordlist (delivered st) = Ok d /\
    wordlist args = Some d /\
    text args = TextStream (ns_text ns) /\
    main args = generate_from_frequencies d /\
    exists evs,
      trace w' = trace w1 ++ evs /\
      (forall h, EvRead h ∈ evs ->
         h = f \/ ns_stopwords ns = Some h \/ ns_mask ns = Some h
         \/ ns_colormask ns = Some h) /\
      (EvRead (ns_text ns) ∈ evs ->
         ns_text ns = stdin /\
         (forall v, last_argument text_of arguments None = Some v ->
                    v = str "-") /\
         (last_argument wordlist_of arguments None = Some (str "-")
          \/ last_argument stopwords_of arguments None = Some (str "-")
          \/ last_argument mask_of arguments None = Some (str "-")
          \/ last_argument colormask_of arguments None = Some (str "-"))).
Proof.
  intros Hin0 Hwl (ns & w1 & Hp & Hr)%parse_args_Ok.
  destruct (consume_args_wordlist _ _ _ _ _ Hp) as [[f Hf] _]; [by left|].
  pose proof (resolve_reads ns _ _ _ Hr) as (evs & Ht & Hevs).
  apply resolve_Ok in Hr as (_ & _ & _ & _ & _ & _ & Hin & _).
  rewrite Hf in Hin. destruct Hin as (st & d & Hst & _ & Hd & Htext & Hwd).
  assert (forall h, EvRead h ∈ evs ->
            h = f \/ ns_stopwords ns = Some h \/ ns_mask ns = Some h
            \/ ns_colormask ns = Some h) as Hreads.
  { intros h Hh. specialize (Hevs h Hh).
    unfold read_streams, input_stream in Hevs. rewrite Hf in Hevs.
    cbn in Hevs.
    destruct (ns_stopwords ns), (ns_mask ns), (ns_colormask ns); set_solver. }
  exists w1, ns, f, st, d. split_and!; try done.
  - by eapply consume_args_only_opens.
  - unfold main. by rewrite Hwd.
  - exists evs. split_and!; [done..|]. intros Hread.
    pose proof (consume_args_text_apart _ _ _ _ _ Hp
                  (text_apart_defaults _ Hin0)) as [_ Hapart].
    assert (other_stream ns (ns_text ns)) as Hother.
    { unfold other_stream. rewrite Hf.
      destruct (Hreads _ Hread) as [->|?]; [by left | by right]. }
    destruct (Hapart _ Hother) as [_ Hstdin].
    specialize (Hstdin eq_refl). rewrite Hstdin in Hother.
    pose proof (fun sel proj step dflt =>
                  consume_args_denotes sel proj step arguments defaults
                    w w1 ns w None dflt Hp (Nat.le_refl _)) as Hden.
    split_and!; [done| |].
    + intros v Hv.
      pose proof (Hden text_of (fun ns => Some (ns_text ns))
                    take_option_text (Some stdin) eq_refl) as Hd1.
      cbn beta in Hd1. rewrite Hstdin in Hd1.
      apply denotes_stdin in Hd1; [|done].
      destruct Hd1 as [Hd1|[Hd1 _]]; congruence.
    + assert (forall sel (proj : Namespace host -> option nat),
                proj ns = Some stdin ->
                denotes w (last_argument sel arguments None) None (proj ns) ->
                last_argument sel arguments None = Some (str "-")) as Hdash.
      { intros sel proj Heq Hd1. rewrite Heq in Hd1.
        apply denotes_stdin in Hd1; [|done].
        by destruct Hd1 as [Hd1|[_ Hd1]]. }
      destruct Hother as [Ho|[Ho|[Ho|Ho]]].
      * left. apply (Hdash wordlist_of ns_wordlist); [done|].
        by apply (Hden wordlist_of ns_wordlist take_option_wordlist_stream).
      * right; left. apply (Hdash stopwords_of ns_stopwords); [done|].
        by apply (Hden stopwords_of ns_stopwords
                    take_option_stopwords_stream).
      * right; right; left. apply (Hdash mask_of ns_mask); [done|].
        by apply (Hden mask_of ns_mask take_option_mask_stream).
      * right; right; right. apply (Hdash colormask_of ns_colormask); [done|].
        by apply (Hden colormask_of ns_colormask
                    take_option_colormask_stream).
Qed.

(** C6.  When [parse_args] returns, [background_color] is "#ffffff00", the
    fully transparent colour, if the background argument (the last
    [--background] given, "black" without one) is exactly "None" or
    exactly "none", and is that argument unchanged otherwise; it is never
    "None" nor "none". *)
Theorem background_normalized arguments w w' args :
  parse_args arguments w = (w', Ok args) ->
  background_color args =
    (if decide (background_argument arguments (str "black") = str "None"
                \/ background_argument arguments (str "black") = str "none")
     then str "#ffffff00"
     else background_argument arguments (str "black"))
  /\ background_color args <> str "None"
  /\ background_color args <> str "none".
Proof.
  intros (ns & w1 & Hp & Hr)%parse_args_Ok.
  apply resolve_Ok in Hr as (_ & -> & _).
  apply consume_args_background in Hp. rewrite Hp.
  cbn [ns_background_color defaults].
  generalize (background_argument arguments (str "black")). intros b.
  unfold normalize_background.
  destruct (decide (b = str "None")), (decide (b = str "none"));
    case_decide; naive_solver.
Qed.

(** C7.  [FileType(mode, bufsize)("-")] touches nothing and returns
    standard input when [mode] contains [r]; standard output when it does
    not and contains [w]; and raises [ValueError] with the message
    'argument "-" with mode %r' formatted with [mode] when it contains
    neither.  Standard input is not standard output. *)
Theorem FileType_dash (mode : pystr) (bufsize : Z) w :
  FileType_call (host:=host) mode bufsize (str "-") w =
    (w, if decide (0x72 ∈ mode) then Ok stdin
        else if decide (0x77 ∈ mode) then Ok stdout
        else Raise (ValueError (MsgDashMode mode)))
  /\ stdin <> stdout.
Proof.
  split; [|done]. unfold FileType_call.
  destruct (decide (str "-" = str "-")); [|done].
  repeat case_decide; done.
Qed.

(** C9.  When [parse_args] returns, [collocations] is the negation of
    [no_collocations], and [no_collocations] is true exactly when
    [--no_collocations] is on the command line. *)
Theorem collocations_negates_flag arguments w w' args :
  parse_args arguments w = (w', Ok args) ->
  collocations args = negb (no_collocations args) /\
  no_collocations args = bool_decide (opt_no_collocations ∈ arguments).
Proof.
  intros (ns & w1 & Hp & Hr)%parse_args_Ok.
  apply resolve_Ok in Hr as (_ & _ & -> & -> & _).
  split; [done|]. by apply consume_args_no_collocations in Hp.
Qed.

(** C10.  When the fixed colour is given as the empty string, the
    exclusivity check does not fire, with or without a colour mask:
    [parse_args] never raises its [ValueError]; and when [parse_args]
    returns, the colour function is not the single-colour one: it is the
    image colour generator when a colour mask was given and the random
    colour function otherwise. *)
Theorem empty_color_is_absent arguments w w1 ns :
  parser_parse_args arguments w = (w1, Ok ns) ->
  color_argument arguments None = Some [] ->
  (forall w', parse_args (host:=host) arguments w
              <> (w', Raise (ValueError (Msg exclusive_message))))
  /\ (forall w' args,
        parse_args arguments w = (w', Ok args) ->
        color args = Some [] /\
        match ns_colormask ns with
        | Some _ => exists image, color_func args = ImageColorGenerator image
        | None => color_func args = random_color_func
        end).
Proof.
  intros Hp Hcolor.
  apply consume_args_color in Hp as Hcol. cbn [ns_color defaults] in Hcol.
  rewrite Hcolor in Hcol. unfold parse_args.
  rewrite (bind_eq_Ok _ _ _ _ _ Hp).
  split.
  - intros w' H%resolve_exclusive. rewrite Hcol in H. cbn in H.
    by rewrite andb_false_r in H.
  - intros w' args (_ & _ & _ & _ & -> & _ & _ & Hcf)%resolve_Ok.
    rewrite Hcol in *. done.
Qed.

End Claims.

(** C3, as the script has it.  Parsing a wordlist succeeds exactly when
    every line is accepted: blank once trimmed, or split by ";" into at
    least two fields of which the second is read by [int]; fields after
    the second are ignored.  The first line that is not accepted ends the
    whole operation with its exception and no mapping: [IndexError] for a
    line without the separator, [ValueError] for a count that is not an
    integer. *)
Theorem wordlist_parses_iff content :
  ((exists d, parse_wordlist content = Ok d) <->
     Forall line_ok (Py.readlines content))
  /\ (forall good bad more,
        Py.readlines content = good ++ bad :: more ->
        Forall line_ok good -> ~ line_ok bad ->
        parse_wordlist content = Raise (line_error bad))
  /\ (forall line,
        Py.strip line <> [] -> 0x3B ∉ Py.strip line ->
        ~ line_ok line /\ line_error line = IndexError)
  /\ (forall line count,
        Py.strip line <> [] ->
        Py.split 0x3B (Py.strip line) !! 1%nat = Some count ->
        Py.int count = None ->
        ~ line_ok line
        /\ line_error line = ValueError (MsgInvalidLiteral count)).
Proof.
  split_and!.
  - split.
    + intros [d Hd]. by apply parse_wordlist_Ok in Hd as [? _].
    + intros Hok. unfold parse_wordlist.
      rewrite wordlist_loop_Ok by done. eauto.
  - intros good bad more E Hgood Hbad. unfold parse_wordlist.
    by rewrite E, wordlist_loop_Raise.
  - intros line Hne Hsep. apply PyFacts.split_second_None in Hsep.
    unfold line_ok, line_error. rewrite Hsep. naive_solver.
  - intros line count Hne Hc Hi.
    unfold line_ok, line_error. rewrite Hc. naive_solver.
Qed.

(** C4, as the script has it.  The stream "a;3\nb;5\n\nc;1" parses to
    {a:3, b:5, c:1}.  A line that is blank once trimmed is skipped.  It is
    the line that is trimmed, as a whole and before it is split: the loop
    does the same on the trimmed lines as on the lines, and a word of the
    mapping has no leading white space (white space before the separator
    stays in the word). *)
Theorem wordlist_example_and_trimming :
  parse_wordlist
    (str "a;3" ++ [0x0A] ++ str "b;5" ++ [0x0A; 0x0A] ++ str "c;1")
  = Ok (<[ str "a" := 3%Z ]> (<[ str "b" := 5%Z ]> {[ str "c" := 1%Z ]}))
  /\ (forall line lines acc,
        Py.strip line = [] ->
        wordlist_loop (line :: lines) acc = wordlist_loop lines acc)
  /\ (forall lines acc,
        wordlist_loop (Py.strip <$> lines) acc = wordlist_loop lines acc)
  /\ (forall content d w,
        parse_wordlist content = Ok d -> is_Some (d !! w) ->
        Py.lstrip w = w).
Proof.
  split_and!.
  - reflexivity.
  - apply wordlist_loop_blank.
  - intros. apply wordlist_loop_strip.
  - intros content d w [_ ->]%parse_wordlist_Ok [c Hc].
    apply PyFacts.dict_lookup_Some, list_elem_of_omap in Hc
      as (line & _ & Hp).
    by eapply line_pair_clean.
Qed.

(** C5.  When a wordlist parses, the mapping is the [dict] of the pairs of
    its lines in order; its keys are pairwise distinct; and a word whose
    last pair has count [c] is bound to [c], by the one entry of the
    mapping for that word.  Parsing "a;1\na;9" yields {a:9}. *)
Theorem wordlist_last_wins :
  (forall content d,
     parse_wordlist content = Ok d ->
     d = Py.dict (omap line_pair (Py.readlines content)) /\
     NoDup (map_to_list d).*1 /\
     forall pre w c post,
       omap line_pair (Py.readlines content) = pre ++ (w, c) :: post ->
       w ∉ post.*1 ->
       d !! w = Some c /\
       filter (fun kv => kv.1 = w) (map_to_list d) = [(w, c)])
  /\ parse_wordlist (str "a;1" ++ [0x0A] ++ str "a;9")
     = Ok {[ str "a" := 9%Z ]}.
Proof.
  split; [|reflexivity].
  intros content d [_ ->]%parse_wordlist_Ok. split_and!; [done| |].
  { apply NoDup_fst_map_to_list. }
  intros pre w c post -> Hw.
  pose proof (PyFacts.dict_last pre post w c Hw) as Hd. split; [done|].
  apply filter_key_unique; [apply NoDup_fst_map_to_list|].
  by apply elem_of_map_to_list.
Qed.

(** C8, as the script has it.  Every count of a parsed wordlist is the
    integer [int] reads from the second field of one of its lines; it is
    not negative when that field has no minus sign, and nothing else keeps
    it from being negative. *)
Theorem wordlist_counts content d w c :
  parse_wordlist content = Ok d -> d !! w = Some c ->
  exists line count,
    line ∈ Py.readlines content /\ Py.strip line <> [] /\
    Py.split 0x3B (Py.strip line) !! 1%nat = Some count /\
    Py.int count = Some c /\
    (0x2D ∉ count -> (0 <= c)%Z).
Proof.
  intros [_ ->]%parse_wordlist_Ok Hd.
  apply PyFacts.dict_lookup_Some, list_elem_of_omap in Hd
    as (line & Hline & Hp).
  exists line. unfold line_pair in Hp.
  destruct (Py.strip line) as [|c0 s0] eqn:E; [done|]. rewrite <- E in *.
  destruct (_ !! 1%nat) as [count|]; [|done]. cbn in Hp.
  destruct (Py.int count) as [n|] eqn:En; [|done]. cbn in Hp.
  injection Hp as _ ->. exists count. split_and!; try done.
  - by rewrite E.
  - intros Hm. by eapply PyFacts.int_nonneg.
Qed.

(** * Concrete runs *)

(** The sentences of the specification's list of testable properties that
    are about single inputs. *)
Example badline_fails : parse_wordlist (str "badline") = Raise IndexError.
Proof. reflexivity. Qed.

Example bad_count_fails :
  parse_wordlist (str "a;x") = Raise (ValueError (MsgInvalidLiteral (str "x"))).
Proof. reflexivity. Qed.

Example background_examples :
  normalize_background (str "None") = str "#ffffff00"
  /\ normalize_background (str "none") = str "#ffffff00"
  /\ normalize_background (str "red") = str "red"
  /\ normalize_background (str "NONE") = str "NONE".
Proof. repeat split; reflexivity. Qed.

(** C1 fails as stated: with [--colormask mask.png --color red] the run
    ends with the exclusivity error, and by then the colour-mask file has
    been opened (stream 2, mode [rb]) by the option parser. *)
Lemma colormask_opened_before_check :
  parse_args (host := simple_host [(str "mask.png", [0x89; 0x50])])
    [opt_colormask (str "mask.png"); opt_color (str "red")]
    (initial_world false [])
  = ({| streams := [ {| rest := []; closed := false; universal := false |};
                     {| rest := []; closed := false; universal := false |};
                     {| rest := [0x89; 0x50]; closed := false;
                        universal := false |} ];
        trace := [EvOpen (str "mask.png") (str "rb") 2] |},
     Raise (ValueError (Msg exclusive_message))).
Proof. vm_compute. reflexivity. Qed.

(** C2 fails as stated: with [--text - --wordlist -] the text resource is
    standard input, and standard input is read (as the wordlist). *)
Lemma shared_stdin_is_read :
  match parse_args (host := simple_host [])
          [opt_text (str "-"); opt_wordlist (str "-")]
          (initial_world false (str "a;1")) with
  | (w', Ok args) =>
      text args = TextStream stdin /\
      wordlist args = Some {[ str "a" := 1%Z ]} /\
      trace w' = [EvRead stdin; EvClose stdin]
  | _ => False
  end.
Proof. vm_compute. done. Qed.

(** C3 fails as stated: a line of three fields is accepted, its third field
    ignored. *)
Lemma three_fields_accepted :
  parse_wordlist (str "a;3;x") = Ok {[ str "a" := 3%Z ]} /\
  Py.split 0x3B (Py.strip (str "a;3;x")) = [str "a"; str "3"; str "x"].
Proof. split; reflexivity. Qed.

(** C4 fails as stated: the word of the line "a ;3" is "a " with its
    trailing blank, not the trimmed field "a". *)
Lemma word_field_not_trimmed :
  parse_wordlist (str "a ;3") = Ok {[ str "a " := 3%Z ]} /\
  Py.strip (str "a ") = str "a" /\
  parse_wordlist (str "a ;3") <> Ok {[ str "a" := 3%Z ]}.
Proof. split_and!; [reflexivity..|]. by vm_compute. Qed.

(** C8 fails as stated: the line "a;-3" parses, to the count -3. *)
Lemma negative_count_accepted :
  parse_wordlist (str "a;-3") = Ok {[ str "a" := (-3)%Z ]}
  /\ ({[ str "a" := (-3)%Z ]} : gmap pystr Z) !! str "a" = Some (-3)%Z
  /\ ~ (0 <= -3)%Z.
Proof. split_and!; [reflexivity..|lia]. Qed.

(** ** The theorems at work on concrete command lines and streams *)

(** C1 at [--colormask mask.png --color red]. *)
Lemma both_colors_rejected_witness :
  exists w1,
    parse_args (host := simple_host [(str "mask.png", [0x89; 0x50])])
      [opt_colormask (str "mask.png"); opt_color (str "red")]
      (initial_world false [])
    = (w1, Raise (ValueError (Msg exclusive_message)))
    /\ only_opens (initial_world false []) w1.
Proof.
  edestruct (both_colors_rejected
               (host := simple_host [(str "mask.png", [0x89; 0x50])])
               [opt_colormask (str "mask.png"); opt_color (str "red")]
               (initial_world false [])) as (H1 & H2 & _).
  - vm_compute. reflexivity.
  - exists (str "mask.png"). constructor.
  - reflexivity.
  - discriminate.
  - eexists. split; [exact H1 | exact H2].
Defined.

(** C2 at [--text t.txt --wordlist wl.txt]: the text file is opened, and
    never read. *)
Lemma wordlist_takes_precedence_witness :
  exists w' args,
    parse_args
      (host := simple_host [(str "t.txt", str "some text");
                            (str "wl.txt", str "a;1")])
      [opt_text (str "t.txt"); opt_wordlist (str "wl.txt")]
      (initial_world false [])
    = (w', Ok args)
    /\ text args = TextStream 2
    /\ main args = generate_from_frequencies {[ str "a" := 1%Z ]}
    /\ EvRead 2 ∉ trace w'.
Proof.
  edestruct (wordlist_takes_precedence
               (host := simple_host [(str "t.txt", str "some text");
                                     (str "wl.txt", str "a;1")])
               [opt_text (str "t.txt"); opt_wordlist (str "wl.txt")]
               (initial_world false []))
    as (w1 & ns & f & st & d & Hp & _ & Hf & Hst & Hd & _ & Ht & Hm
        & evs & Htr & _ & Hread).
  - vm_compute. eauto.
  - exists (str "wl.txt"). right. constructor.
  - vm_compute. reflexivity.
  - eexists _, _. split; [vm_compute; reflexivity|].
    vm_compute in Hp. injection Hp as <- <-.
    vm_compute in Hf. injection Hf as <-.
    vm_compute in Hst. injection Hst as <-.
    vm_compute in Hd. injection Hd as <-.
    split; [exact Ht|]. split; [exact Hm|].
    rewrite Htr. intros [Hin|Hin]%elem_of_app.
    + vm_compute in Hin. set_solver.
    + by destruct (Hread Hin) as [? _].
Defined.

(** C3 at a stream whose second line has no separator. *)
Lemma wordlist_parses_iff_witness :
  parse_wordlist (str "a;1" ++ [0x0A] ++ str "badline") = Raise IndexError.
Proof.
  destruct (wordlist_parses_iff (str "a;1" ++ [0x0A] ++ str "badline"))
    as (_ & H & _).
  apply (H [str "a;1" ++ [0x0A]] (str "badline") []).
  - reflexivity.
  - constructor; [|constructor].
    right. exists (str "1"), 1%Z. split; reflexivity.
  - intros [H1|(count & n & H1 & _)]; vm_compute in H1; discriminate.
Defined.

(** C4 at a stream that starts with a line of blanks. *)
Lemma wordlist_example_and_trimming_witness :
  wordlist_loop [str "   "; str "a;1"] [] = wordlist_loop [str "a;1"] [].
Proof.
  apply (proj1 (proj2 wordlist_example_and_trimming)). reflexivity.
Defined.

(** C5 at the stream "a;1\na;9". *)
Lemma wordlist_last_wins_witness :
  ({[ str "a" := 9%Z ]} : gmap pystr Z) !! str "a" = Some 9%Z.
Proof.
  destruct (proj1 wordlist_last_wins (str "a;1" ++ [0x0A] ++ str "a;9")
              {[ str "a" := 9%Z ]} eq_refl) as (_ & _ & H).
  destruct (H [(str "a", 1%Z)] (str "a") 9%Z []) as [H1 _].
  - reflexivity.
  - apply not_elem_of_nil.
  - exact H1.
Defined.

(** C6 at [--background None]. *)
Lemma background_normalized_witness :
  exists w' args,
    parse_args (host := simple_host []) [opt_background (str "None")]
      (initial_world false (str "some text")) = (w', Ok args)
    /\ background_color args = str "#ffffff00".
Proof.
  edestruct (background_normalized (host := simple_host [])
               [opt_background (str "None")]
               (initial_world false (str "some text"))) as (H & _).
  - vm_compute. reflexivity.
  - eexists _, _. split; [vm_compute; reflexivity | exact H].
Defined.

(** C8 at the stream "a;3". *)
Lemma wordlist_counts_witness :
  exists line count,
    line ∈ Py.readlines (str "a;3") /\ Py.strip line <> [] /\
    Py.split 0x3B (Py.strip line) !! 1%nat = Some count /\
    Py.int count = Some 3%Z /\
    (0x2D ∉ count -> (0 <= 3)%Z).
Proof.
  apply (wordlist_counts (str "a;3") {[ str "a" := 3%Z ]} (str "a") 3%Z);
    reflexivity.
Defined.

(** C9 at [--no_collocations]. *)
Lemma collocations_negates_flag_witness :
  exists w' args,
    parse_args (host := simple_host []) [opt_no_collocations]
      (initial_world false (str "some text")) = (w', Ok args)
    /\ collocations args = false.
Proof.
  edestruct (collocations_negates_flag (host := simple_host [])
               [opt_no_collocations] (initial_world false (str "some text")))
    as (H1 & H2).
  - vm_compute. reflexivity.
  - eexists _, _. split; [vm_compute; reflexivity|].
    rewrite H1, H2. reflexivity.
Defined.

(** C10 at [--colormask mask.png --color ""]. *)
Lemma empty_color_is_absent_witness :
  exists w' args,
    parse_args (host := simple_host [(str "mask.png", [0x89; 0x50])])
      [opt_colormask (str "mask.png"); opt_color []]
      (initial_world false (str "some text")) = (w', Ok args)
    /\ color args = Some []
    /\ exists image, color_func args = ImageColorGenerator image.
Proof.
  edestruct (empty_color_is_absent
               (host := simple_host [(str "mask.png", [0x89; 0x50])])
               [opt_colormask (str "mask.png"); opt_color []]
               (initial_world false (str "some text"))) as (_ & H).
  - vm_compute. reflexivity.
  - reflexivity.
  - eexists _, _. split; [vm_compute; reflexivity|].
    apply (H _ _ eq_refl).
Defined.

(** * Further properties of the code

    What follows covers the rest of [FileType.__call__], the option
    parser as a whole, the reading and closing of the streams by
    [parse_args], the wordlist and the stopwords, and the choice made by
    [main]. *)

(** ** More facts about the runtime primitives *)

Module PyMore.
Import Py.

Lemma lstrip_all_space s : Forall (fun c => isspace c = true) s -> lstrip s = [].
Proof.
  induction 1 as [|c s Hc _ IH]; [done|]. cbn [lstrip]. by rewrite Hc.
Qed.

Lemma strip_all_space s : Forall (fun c => isspace c = true) s -> strip s = [].
Proof. intros H. unfold strip. by rewrite lstrip_all_space. Qed.

Lemma strip_snoc_space s c : isspace c = true -> strip (s ++ [c]) = strip s.
Proof.
  intros Hc. unfold strip. rewrite PyFacts.lstrip_app.
  destruct (lstrip s) as [|d t] eqn:E.
  - cbn [lstrip]. by rewrite Hc.
  - unfold rstrip. rewrite reverse_app, reverse_singleton. cbn [app lstrip].
    by rewrite Hc.
Qed.

Lemma lines_from_Forall (P : N -> Prop) s : forall cur,
  Forall P cur -> Forall P s -> Forall (Forall P) (lines_from cur s).
Proof.
  induction s as [|c s IH]; intros cur Hcur Hs; cbn [lines_from].
  - destruct cur; [by apply Forall_nil | by apply Forall_singleton].
  - apply Forall_cons in Hs as [Hc Hs].
    assert (Forall P (cur ++ [c])) by (apply Forall_app; auto).
    destruct (c =? 0x0A); [constructor|]; auto.
Qed.

Lemma lines_from_newline a : forall cur b,
  lines_from cur (a ++ 0x0A :: b)
  = lines_from cur (a ++ [0x0A]) ++ lines_from [] b.
Proof.
  induction a as [|c a IH]; intros cur b; cbn [app lines_from].
  - done.
  - destruct (c =? 0x0A); [by rewrite IH | apply IH].
Qed.

Lemma split_from_fields sep s : forall cur,
  sep ∉ cur -> Forall (fun field => sep ∉ field) (split_from sep cur s).
Proof.
  induction s as [|c s IH]; intros cur Hcur; cbn [split_from].
  - by repeat constructor.
  - destruct (N.eqb_spec c sep) as [->|Hne].
    + constructor; [done|]. apply IH, not_elem_of_nil.
    + apply IH. rewrite not_elem_of_app, not_elem_of_cons.
      split_and!; [done|congruence|apply not_elem_of_nil].
Qed.

Lemma dict_nil {V} : dict (V:=V) [] = ∅.
Proof. done. Qed.

Lemma dict_app {V} (p1 p2 : list (pystr * V)) :
  dict (p1 ++ p2) = dict p2 ∪ dict p1.
Proof.
  induction p2 as [|[k v] p2 IH] using rev_ind.
  - by rewrite app_nil_r, dict_nil, (left_id_L ∅ (∪)).
  - by rewrite app_assoc, !PyFacts.dict_snoc, IH, insert_union_l.
Qed.

Lemma dict_list_to_map {V} (pairs : list (pystr * V)) :
  dict pairs = list_to_map (reverse pairs).
Proof.
  induction pairs as [|[k v] pairs IH] using rev_ind; [done|].
  by rewrite PyFacts.dict_snoc, reverse_snoc, IH.
Qed.

Lemma dict_size {V} (pairs : list (pystr * V)) :
  (size (dict pairs) <= length pairs)%nat.
Proof.
  induction pairs as [|[k v] pairs IH] using rev_ind; [done|].
  rewrite PyFacts.dict_snoc, length_app, map_size_insert. cbn.
  destruct (dict pairs !! k); cbn; lia.
Qed.
End PyMore.


(** ** More facts about the wordlist loop *)

Section WordlistMore.
Implicit Types (line : pystr) (lines : list pystr) (acc : list (pystr * Z)).

Lemma wordlist_loop_same_strip l1 l2 m1 m2 acc :
  Py.strip l1 = Py.strip l2 ->
  (forall acc', wordlist_loop m1 acc' = wordlist_loop m2 acc') ->
  wordlist_loop (l1 :: m1) acc = wordlist_loop (l2 :: m2) acc.
Proof.
  intros E Hm. rewrite !wordlist_loop_cons, E.
  destruct (Py.strip l2); [done|].
  destruct (_ !! 1%nat) as [count|]; [|done]. by destruct (Py.int count).
Qed.

Lemma wordlist_loop_app l1 : forall l2 acc,
  wordlist_loop (l1 ++ l2) acc =
    match wordlist_loop l1 acc with
    | Ok acc' => wordlist_loop l2 acc'
    | Raise e => Raise e
    end.
Proof.
  induction l1 as [|line l1 IH]; intros l2 acc; [done|].
  cbn [app]. rewrite !wordlist_loop_cons.
  destruct (Py.strip line); [done|].
  destruct (_ !! 1%nat) as [count|]; [|done]. by destruct (Py.int count).
Qed.

Lemma wordlist_loop_final_newline a : forall cur acc,
  wordlist_loop (Py.lines_from cur (a ++ [0x0A])) acc
  = wordlist_loop (Py.lines_from cur a) acc.
Proof.
  induction a as [|c a IH]; intros cur acc; cbn [app Py.lines_from].
  - change (0x0A =? 0x0A) with true. cbn [Py.lines_from].
    destruct cur as [|c0 cur].
    + by rewrite wordlist_loop_blank.
    + apply wordlist_loop_same_strip; [|done].
      by apply PyMore.strip_snoc_space.
  - destruct (c =? 0x0A); [|apply IH].
    apply wordlist_loop_same_strip; [done|]. intros acc'. apply IH.
Qed.

Lemma wordlist_loop_all_blank lines acc :
  Forall (fun line => Py.strip line = []) lines ->
  wordlist_loop lines acc = Ok acc.
Proof.
  induction 1 as [|line lines Hl _ IH]; [done|].
  by rewrite wordlist_loop_blank.
Qed.

Lemma line_pair_nonblank line kv :
  line_pair line = Some kv -> Py.strip line <> [].
Proof. unfold line_pair. by destruct (Py.strip line). Qed.

Lemma line_pair_no_separator line k n :
  line_pair line = Some (k, n) -> 0x3B ∉ k.
Proof.
  unfold line_pair. destruct (Py.strip line) as [|c0 s0] eqn:E; [done|].
  rewrite <- E. destruct (_ !! 1%nat) as [count|]; [|done]. cbn.
  destruct (Py.int count); [|done]. cbn. intros [= <- <-].
  pose proof (PyMore.split_from_fields 0x3B (Py.strip line) []
                (not_elem_of_nil _)) as Hf.
  unfold Py.split. destruct (Py.split_from _ _ _) as [|f fs]; cbn.
  - apply not_elem_of_nil.
  - by apply Forall_cons in Hf as [? _].
Qed.

Lemma pairs_length lines :
  (length (omap line_pair lines)
   <= length (filter (fun line => Py.strip line <> []) lines))%nat.
Proof.
  induction lines as [|line lines IH]; [done|]. cbn [omap list_omap].
  destruct (line_pair line) as [kv|] eqn:E.
  - rewrite filter_cons_True by by eapply line_pair_nonblank. cbn. lia.
  - rewrite filter_cons. case_decide; cbn; lia.
Qed.

Lemma line_ok_Permutation l1 l2 :
  l1 ≡ₚ l2 -> Forall line_ok l1 -> Forall line_ok l2.
Proof. by intros ->. Qed.
End WordlistMore.


(** ** [parse_args], statement by statement *)

Section StagesFacts.
Context {host : Host}.
Implicit Types (ns : Namespace host) (w : world).

Lemma resolve_stages ns :
  resolve ns =
    if truthy_stream (ns_colormask ns) && truthy_str (ns_color ns)
    then raise (ValueError (Msg exclusive_message))
    else stages ns.
Proof. reflexivity. Qed.
End StagesFacts.


(** ** Relations that every statement keeps *)

Section Runs.
Context {host : Host}.
Implicit Types (ns : Namespace host) (w : world).

Section Relation.
Context (R : world -> world -> Prop) `{!PreOrder R}.

Lemma runs_in_ret {A} (a : A) : runs_in R (ret a).
Proof. by intros w w' r [= <- <-]. Qed.

Lemma runs_in_raise {A} e : runs_in R (raise (A:=A) e).
Proof. by intros w w' r [= <- <-]. Qed.

Lemma runs_in_lift {A} (x : result A) : runs_in R (lift x).
Proof. by intros w w' r [= <- <-]. Qed.

Lemma runs_in_bind {A B} (m : M A) (k : A -> M B) :
  runs_in R m -> (forall a, runs_in R (k a)) -> runs_in R (bind m k).
Proof.
  intros Hm Hk w w' r. unfold bind.
  destruct (m w) as [w1 [a|e]] eqn:E.
  - intros H. etrans; [by eapply Hm | by eapply Hk].
  - intros [= <- <-]. by eapply Hm.
Qed.

Lemma runs_in_with_stream {A} h (body : M A) :
  runs_in R body -> (forall w, R w (close h w)) ->
  runs_in R (with_stream h body).
Proof.
  intros Hb Hc w w' r. unfold with_stream.
  destruct (streams w !! h) as [st|]; [|by intros [= <- <-]].
  destruct (closed st); [by intros [= <- <-]|].
  destruct (body w) as [w1 r1] eqn:E. intros [= <- <-].
  etrans; [by eapply Hb | apply Hc].
Qed.

Lemma runs_in_load_image f :
  runs_in R (read_bytes f) -> runs_in R (load_image (host:=host) f).
Proof.
  intros Hf. apply runs_in_bind; [done|]. intros bytes.
  destruct (image_array host bytes);
    [apply runs_in_ret | apply runs_in_raise].
Qed.

(** The stages, for a relation kept by the reads and the closings they
    do. *)
Lemma runs_in_read_input ns :
  runs_in R (read (input_stream ns)) ->
  (forall w, R w (close (input_stream ns) w)) ->
  runs_in R (read_input ns).
Proof.
  unfold read_input, input_stream. intros Hr Hc.
  destruct (ns_wordlist ns) as [f|]; cbn in Hr, Hc.
  - apply runs_in_bind; [|intros ?; apply runs_in_ret].
    apply runs_in_with_stream; [|done].
    apply runs_in_bind; [done|]. intros ?. apply runs_in_lift.
  - apply runs_in_bind; [|intros ?; apply runs_in_ret].
    by apply runs_in_with_stream.
Qed.

Lemma runs_in_read_stopwords ns :
  (forall f, ns_stopwords ns = Some f ->
             runs_in R (read f) /\ forall w, R w (close f w)) ->
  runs_in R (read_stopwords ns).
Proof.
  unfold read_stopwords. intros H.
  destruct (ns_stopwords ns) as [f|]; [|apply runs_in_ret].
  destruct (H f eq_refl) as [Hr Hc].
  apply runs_in_bind; [|intros ?; apply runs_in_ret].
  by apply runs_in_with_stream.
Qed.

Lemma runs_in_read_mask ns :
  (forall f, ns_mask ns = Some f -> runs_in R (read_bytes f)) ->
  runs_in R (read_mask ns).
Proof.
  unfold read_mask. intros H.
  destruct (ns_mask ns) as [f|]; [|apply runs_in_ret].
  apply runs_in_bind; [|intros ?; apply runs_in_ret].
  by apply runs_in_load_image, H.
Qed.

Lemma runs_in_mask_color_func ns :
  (forall f, ns_colormask ns = Some f -> runs_in R (read_bytes f)) ->
  runs_in R (mask_color_func ns).
Proof.
  unfold mask_color_func. intros H.
  destruct (ns_colormask ns) as [f|]; [|apply runs_in_ret].
  apply runs_in_bind; [by apply runs_in_load_image, H|]. intros image.
  destruct (image_colors_ok host image);
    [apply runs_in_ret | apply runs_in_raise].
Qed.

Lemma runs_in_single_color_func ns cf :
  runs_in R (single_color_func ns cf).
Proof.
  unfold single_color_func. destruct (truthy_str _); [|apply runs_in_ret].
  cbn. destruct (single_color_ok host _);
    [apply runs_in_ret | apply runs_in_raise].
Qed.

Lemma runs_in_resolve ns :
  runs_in R (read (input_stream ns)) ->
  (forall w, R w (close (input_stream ns) w)) ->
  (forall f, ns_stopwords ns = Some f ->
             runs_in R (read f) /\ forall w, R w (close f w)) ->
  (forall f, ns_mask ns = Some f -> runs_in R (read_bytes f)) ->
  (forall f, ns_colormask ns = Some f -> runs_in R (read_bytes f)) ->
  runs_in R (resolve ns).
Proof.
  intros H1 H2 H3 H4 H5. rewrite resolve_stages.
  destruct (_ && _); [apply runs_in_raise|]. unfold stages.
  apply runs_in_bind; [by apply runs_in_read_input|]. intros input.
  apply runs_in_bind; [by apply runs_in_read_stopwords|]. intros stop.
  apply runs_in_bind; [by apply runs_in_read_mask|]. intros mask_array.
  apply runs_in_bind; [by apply runs_in_mask_color_func|]. intros cf.
  apply runs_in_bind; [apply runs_in_single_color_func|]. intros cf'.
  apply runs_in_ret.
Qed.
End Relation.

(** ** Events *)
#[global] Instance events_only_preorder P : PreOrder (events_only P).
Proof.
  split.
  - intros w. exists []. by rewrite app_nil_r.
  - intros w1 w2 w3 (e1 & T1 & F1) (e2 & T2 & F2). exists (e1 ++ e2).
    rewrite T2, T1, app_assoc. split; [done|]. by apply Forall_app.
Qed.

Lemma events_only_read_with P view h :
  P (EvRead h) -> runs_in (events_only P) (read_with view h).
Proof.
  intros HP w w' r. unfold read_with.
  destruct (streams w !! h) as [st|]; [|by intros [= <- <-]].
  destruct (closed st); intros [= <- <-]; [reflexivity|].
  exists [EvRead h]. split; [done|]. by apply Forall_singleton.
Qed.

Lemma events_only_close P h w : P (EvClose h) -> events_only P w (close h w).
Proof. intros HP. exists [EvClose h]. split; [done|]. by apply Forall_singleton. Qed.

Lemma resolve_events ns : runs_in (events_only (resolve_event ns)) (resolve ns).
Proof.
  apply runs_in_resolve; [apply _|..].
  - apply events_only_read_with. cbn. by left.
  - intros w. apply events_only_close. cbn. by left.
  - intros f Hf. split.
    + apply events_only_read_with. cbn. unfold read_streams. rewrite Hf.
      set_solver.
    + intros w. apply events_only_close. cbn. by right.
  - intros f Hf. apply events_only_read_with. cbn. unfold read_streams.
    rewrite Hf. set_solver.
  - intros f Hf. apply events_only_read_with. cbn. unfold read_streams.
    rewrite Hf. set_solver.
Qed.

(** ** Closed streams *)
#[global] Instance stays_closed_preorder f : PreOrder (stays_closed f).
Proof.
  split.
  - intros w H. exact H.
  - intros w1 w2 w3 H1 H2 H. apply H2, H1, H.
Qed.

Lemma stays_closed_read_with f view h :
  runs_in (stays_closed f) (read_with view h).
Proof.
  intros w w' r. unfold read_with.
  destruct (streams w !! h) as [st|] eqn:E; [|by intros [= <- <-]].
  destruct (closed st) eqn:Ec; intros [= <- <-]; [done|].
  intros (st' & Hst & Hcl). exists st'. split; [|done]. cbn.
  rewrite list_lookup_insert_ne; [done|]. intros ->. congruence.
Qed.

Lemma close_closes h w : is_Some (streams w !! h) -> is_closed (close h w) h.
Proof.
  intros [st Hst]. unfold is_closed, close. cbn. rewrite Hst.
  eexists. split; [apply list_lookup_insert_eq; by eapply lookup_lt_Some|].
  done.
Qed.

Lemma stays_closed_close f h w : stays_closed f w (close h w).
Proof.
  intros (st & Hst & Hcl). destruct (decide (h = f)) as [->|Hne].
  - apply close_closes. eauto.
  - exists st. split; [|done]. unfold close. cbn.
    destruct (streams w !! h); [|done]. by rewrite list_lookup_insert_ne.
Qed.

Lemma read_with_keeps view h w w' r f :
  read_with view h w = (w', r) ->
  is_Some (streams w !! f) -> is_Some (streams w' !! f).
Proof.
  unfold read_with. destruct (streams w !! h) as [st|]; [|by intros [= <- <-]].
  destruct (closed st); intros [= <- <-]; [done|]. cbn.
  rewrite !lookup_lt_is_Some, length_insert. done.
Qed.

Lemma with_stream_Ok_closed {A} h view (k : pystr -> result A) w w' a :
  with_stream h (bind (read_with view h) (fun x => lift (k x))) w
  = (w', Ok a) -> is_closed w' h.
Proof.
  unfold with_stream. destruct (streams w !! h) as [st|] eqn:E; [|done].
  destruct (closed st); [done|].
  destruct (bind _ _ w) as [w1 r1] eqn:Eb. intros [= <- ->].
  apply close_closes. unfold bind in Eb.
  destruct (read_with view h w) as [w2 r2] eqn:Er.
  eapply (read_with_keeps _ _ _ _ _ h) in Er; [|rewrite E; eauto].
  destruct r2; cbn in Eb; [|done]. unfold lift in Eb. by simplify_eq.
Qed.
End Runs.


(** ** More facts about the option parser *)

Section ParserModes.
Context {host : Host}.
Implicit Types (ns : Namespace host) (w : world) (o : cli_opt).

Lemma FileType_r_call v w :
  FileType_call (host:=host) (str "r") (-1) v w =
    if decide (v = str "-") then (w, Ok stdin)
    else match io_open host v (str "r") (-1) (Some (str "UTF-8")) with
         | Opened content => new_stream v (str "r") content w
         | OpenIOError e =>
             (w, Raise (ArgumentTypeError (Msg (cant_open v e))))
         | OpenRaises x => (w, Raise x)
         end.
Proof.
  unfold FileType_call. destruct (decide (v = str "-")); [done|].
  by destruct (io_open _ _ _ _ _).
Qed.

Lemma argparse_FileType_rb_call v w :
  argparse_FileType_call (host:=host) (str "rb") (-1) v w =
    if decide (v = str "-") then (w, Ok stdin)
    else match io_open host v (str "rb") (-1) None with
         | Opened content => new_stream v (str "rb") content w
         | OpenIOError e =>
             (w, Raise (ArgumentTypeError (Msg (cant_open v e))))
         | OpenRaises x => (w, Raise x)
         end.
Proof.
  unfold argparse_FileType_call. destruct (decide (v = str "-")); [done|].
  by destruct (io_open _ _ _ _ _).
Qed.

Lemma argparse_FileType_wb_call v w :
  argparse_FileType_call (host:=host) (str "wb") (-1) v w =
    if decide (v = str "-") then (w, Ok stdout)
    else match io_open host v (str "wb") (-1) None with
         | Opened content => new_stream v (str "wb") content w
         | OpenIOError e =>
             (w, Raise (ArgumentTypeError (Msg (cant_open v e))))
         | OpenRaises x => (w, Raise x)
         end.
Proof.
  unfold argparse_FileType_call. destruct (decide (v = str "-")); [done|].
  by destruct (io_open _ _ _ _ _).
Qed.

End ParserModes.

Ltac run_step :=
  repeat (simplify_eq;
          match goal with
          | H : context [decide ?P] |- _ => destruct (decide P)
          | H : context [match ?x with _ => _ end] |- _ => destruct x eqn:?
          end);
  simplify_eq.

Ltac unfold_step :=
  cbn [take_option]; unfold bind, get_value;
  rewrite ?FileType_r_call, ?argparse_FileType_rb_call,
    ?argparse_FileType_wb_call;
  unfold int_type, float_type, ret, raise.

Section ParserMore.
Context {host : Host}.
Implicit Types (ns : Namespace host) (w : world) (o : cli_opt).

Lemma opens_from_app n l1 l2 :
  opens_from n (l1 ++ l2)
  = opens_from n l1 ++ opens_from (n + length l1) l2.
Proof.
  revert n. induction l1 as [|[p m] l1 IH]; intros n; cbn.
  - by rewrite Nat.add_0_r.
  - rewrite IH. do 3 f_equal. lia.
Qed.

Lemma take_option_opens o ns w w' ns' :
  take_option o ns w = (w', Ok ns') ->
  trace w' = trace w
             ++ opens_from (length (streams w)) (option_list (file_option o))
  /\ length (streams w')
     = (length (streams w) + length (option_list (file_option o)))%nat.
Proof.
  destruct o; unfold_step; unfold new_stream; cbn [file_option]; intros H;
    run_step; cbn; rewrite ?app_nil_r, ?length_app; cbn; (split; [done|lia]).
Qed.

Lemma consume_args_opens arguments : forall ns w w' ns',
  consume_args arguments ns w = (w', Ok ns') ->
  trace w' = trace w
             ++ opens_from (length (streams w)) (omap file_option arguments)
  /\ length (streams w')
     = (length (streams w) + length (omap file_option arguments))%nat.
Proof.
  induction arguments as [|o more IH]; intros ns w w' ns' H.
  - cbn in H. injection H as Hw Hns; subst. cbn. by rewrite app_nil_r.
  - cbn [consume_args] in H. apply bind_Ok in H as (ns1 & w1 & H1 & H2).
    apply take_option_opens in H1 as [T1 L1].
    apply IH in H2 as [T2 L2]. rewrite T2, T1, L2, L1.
    cbn [omap list_omap].
    destruct (file_option o) as [[p m]|]; cbn.
    + rewrite <- app_assoc. cbn. split; [|lia]. do 3 f_equal. lia.
    + rewrite app_nil_r, Nat.add_0_r. done.
Qed.

Lemma take_option_Raise o ns w w' e :
  take_option o ns w = (w', Raise e) ->
  (exists m, e = SystemExit 2 m) \/
  (exists path mode bufsize enc,
      io_open host path mode bufsize enc = OpenRaises e).
Proof.
  destruct o; unfold_step; intros H; run_step; eauto 10.
Qed.

Lemma consume_args_Raise arguments : forall ns w w' e,
  consume_args arguments ns w = (w', Raise e) ->
  (exists m, e = SystemExit 2 m) \/
  (exists path mode bufsize enc,
      io_open host path mode bufsize enc = OpenRaises e).
Proof.
  induction arguments as [|o more IH]; intros ns w w' e H; [done|].
  cbn [consume_args] in H.
  apply bind_Raise in H as [H|(ns1 & w1 & _ & H)];
    [by eapply take_option_Raise | by eapply IH].
Qed.
End ParserMore.



Section ParserTheorems.
Context {host : Host}.
Implicit Types (ns : Namespace host) (w : world) (o : cli_opt) (args : Args host).

Lemma consume_args_numeric sel (proj : Namespace host -> Z) :
  (forall o ns w w' ns',
      take_option o ns w = (w', Ok ns') ->
      match sel o with
      | Some v => Py.int v = Some (proj ns')
      | None => proj ns' = proj ns
      end) ->
  forall arguments ns w w' ns' c dflt,
    consume_args arguments ns w = (w', Ok ns') ->
    converts c dflt (proj ns) ->
    converts (last_argument sel arguments c) dflt (proj ns').
Proof.
  intros Hstep. induction arguments as [|o more IH];
    intros ns w w' ns' c dflt H Hc.
  - cbn in H. injection H as Hw Hns; by subst.
  - cbn [consume_args] in H. apply bind_Ok in H as (ns1 & w1 & H1 & H2).
    cbn. eapply IH; [done|]. apply Hstep in H1.
    destruct (sel o); cbn; [done|]. by rewrite H1.
Qed.

Lemma take_option_width o ns w w' ns' :
  take_option o ns w = (w', Ok ns') ->
  match width_of o with
  | Some v => Py.int v = Some (ns_width ns')
  | None => ns_width ns' = ns_width ns
  end.
Proof. destruct o; unfold_step; intros H; run_step; done. Qed.

Lemma take_option_height o ns w w' ns' :
  take_option o ns w = (w', Ok ns') ->
  match height_of o with
  | Some v => Py.int v = Some (ns_height ns')
  | None => ns_height ns' = ns_height ns
  end.
Proof. destruct o; unfold_step; intros H; run_step; done. Qed.

Lemma take_option_margin o ns w w' ns' :
  take_option o ns w = (w', Ok ns') ->
  match margin_of o with
  | Some v => Py.int v = Some (ns_margin ns')
  | None => ns_margin ns' = ns_margin ns
  end.
Proof. destruct o; unfold_step; intros H; run_step; done. Qed.



(** X3 (the parser, lines 83-137).  A command line the parser accepts
    opens one stream for each occurrence of a file-valued option whose
    argument is not ["-"], in the order of the command line and with the
    mode of the option (["r"] for text, stopwords and wordlist, ["wb"] for
    the image file, ["rb"] for mask and colour mask), also when a later
    occurrence of the same option replaces it; nothing else is opened. *)
Theorem parser_opens_exactly arguments w w' ns :
  parser_parse_args arguments w = (w', Ok ns) ->
  trace w' = trace w
             ++ opens_from (length (streams w)) (omap file_option arguments)
  /\ length (streams w')
     = (length (streams w) + length (omap file_option arguments))%nat.
Proof. apply consume_args_opens. Qed.

(** X4 (the parser, lines 83-137, and [FileType.__call__]).  When the
    parser fails on an argument, the process exits with status 2 (a file
    that cannot be opened, an argument that is not a number), or the
    exception is one, other than an [IOError], that [io.open] itself
    raised. *)
Theorem parser_failure_status arguments w w' e :
  parser_parse_args (host:=host) arguments w = (w', Raise e) ->
  (exists m, e = SystemExit 2 m) \/
  (exists path mode bufsize enc,
      io_open host path mode bufsize enc = OpenRaises e).
Proof. apply consume_args_Raise. Qed.

(** X6 ([--margin], [--width], [--height], lines 115-123, and
    [parse_args]).  In the result of [parse_args] the width, the height
    and the margin are each what [int] makes of the argument of the last
    occurrence of the option, and 400, 200 and 2 without one. *)
Theorem numeric_options arguments w w' args :
  parse_args arguments w = (w', Ok args) ->
  converts (last_argument width_of arguments None) 400 (width args)
  /\ converts (last_argument height_of arguments None) 200 (height args)
  /\ converts (last_argument margin_of arguments None) 2 (margin args).
Proof.
  intros (ns & w1 & Hp & Hr)%parse_args_Ok.
  unfold resolve in Hr. destruct (_ && _); [done|].
  repeat (apply bind_Ok in Hr as (? & ? & _ & Hr)).
  injection Hr as _ <-. cbn [width height margin].
  split_and!.
  - by eapply (consume_args_numeric width_of ns_width take_option_width).
  - by eapply (consume_args_numeric height_of ns_height take_option_height).
  - by eapply (consume_args_numeric margin_of ns_margin take_option_margin).
Qed.
End ParserTheorems.


(** ** More facts about [parse_args] *)

Section ResolveMore.
Context {host : Host}.
Implicit Types (ns : Namespace host) (w : world) (args : Args host).

#[global] Instance keeps_stream_preorder f : PreOrder (keeps_stream f).
Proof.
  split.
  - intros w H. exact H.
  - intros w1 w2 w3 H1 H2 H. apply H2, H1, H.
Qed.

Lemma keeps_stream_read_with f view h :
  runs_in (keeps_stream f) (read_with view h).
Proof. intros w w' r H Hf. by eapply read_with_keeps. Qed.

Lemma with_stream_closes {A} h (body : M A) w w' a :
  runs_in (keeps_stream h) body ->
  with_stream h body w = (w', Ok a) -> is_closed w' h.
Proof.
  intros Hb. unfold with_stream.
  destruct (streams w !! h) as [st|] eqn:E; [|done].
  destruct (closed st); [done|].
  destruct (body w) as [w1 r1] eqn:Eb. intros [= <- ->].
  apply close_closes. eapply Hb; [done|]. rewrite E. eauto.
Qed.

Lemma read_with_closed view h w :
  is_closed w h -> read_with view h w = (w, Raise (ValueError MsgClosedFile)).
Proof. intros (st & Hst & Hc). unfold read_with. by rewrite Hst, Hc. Qed.

Lemma with_stream_closed {A} h (body : M A) w :
  is_closed w h ->
  with_stream h body w = (w, Raise (ValueError MsgClosedFile)).
Proof. intros (st & Hst & Hc). unfold with_stream. by rewrite Hst, Hc. Qed.

Lemma read_input_closes ns w w' input :
  read_input ns w = (w', Ok input) -> is_closed w' (input_stream ns).
Proof.
  unfold read_input, input_stream.
  destruct (ns_wordlist ns) as [f|]; cbn;
    intros (x & w1 & H & Hr)%bind_Ok; injection Hr as <- _;
    eapply with_stream_closes; [|done| |done].
  - apply runs_in_bind; [apply _|apply keeps_stream_read_with|].
    intros ?. apply runs_in_lift, _.
  - apply keeps_stream_read_with.
Qed.

Lemma stays_closed_read f h : runs_in (stays_closed f) (read h).
Proof. apply stays_closed_read_with. Qed.

Lemma stays_closed_stopwords f ns :
  runs_in (stays_closed f) (read_stopwords ns).
Proof.
  apply runs_in_read_stopwords; [apply _|]. intros g _. split.
  - apply stays_closed_read.
  - intros w. apply stays_closed_close.
Qed.

Lemma stays_closed_mask f ns : runs_in (stays_closed f) (read_mask ns).
Proof.
  apply runs_in_read_mask; [apply _|]. intros g _.
  apply stays_closed_read_with.
Qed.

Lemma stays_closed_mask_color f ns :
  runs_in (stays_closed f) (mask_color_func ns).
Proof.
  apply runs_in_mask_color_func; [apply _|]. intros g _.
  apply stays_closed_read_with.
Qed.

Lemma stays_closed_single_color f ns cf :
  runs_in (stays_closed f) (single_color_func ns cf).
Proof. apply runs_in_single_color_func, _. Qed.

(** A successful run of the stages leaves the input stream closed. *)
Lemma stages_close_input ns w w' args :
  stages ns w = (w', Ok args) -> is_closed w' (input_stream ns).
Proof.
  unfold stages.
  intros (input & w1 & H1 & H)%bind_Ok.
  apply bind_Ok in H as (stop & w2 & H2 & H).
  apply bind_Ok in H as (m & w3 & H3 & H).
  apply bind_Ok in H as (cf & w4 & H4 & H).
  apply bind_Ok in H as (cf' & w5 & H5 & H).
  injection H as <- _.
  eapply stays_closed_single_color; [done|].
  eapply stays_closed_mask_color; [done|].
  eapply stays_closed_mask; [done|].
  eapply stays_closed_stopwords; [done|].
  by eapply read_input_closes.
Qed.

Lemma supplied_wordlist_dec arguments :
  supplied_wordlist arguments \/ ~ supplied_wordlist arguments.
Proof.
  unfold supplied_wordlist.
  induction arguments as [|o more [[p Hp]|IH]].
  - right. by intros [p ?%elem_of_nil].
  - left. exists p. by right.
  - destruct o; try (right; intros [p [?|?]%elem_of_cons]; [done|];
                     apply IH; by exists p).
    left. eexists. by left.
Qed.

Lemma supplied_colormask_dec arguments :
  supplied_colormask arguments \/ ~ supplied_colormask arguments.
Proof.
  unfold supplied_colormask.
  induction arguments as [|o more [[p Hp]|IH]].
  - right. by intros [p ?%elem_of_nil].
  - left. exists p. by right.
  - destruct o; try (right; intros [p [?|?]%elem_of_cons]; [done|];
                     apply IH; by exists p).
    left. eexists. by left.
Qed.

(** X7 ([parse_args], lines 152-154).  Without a wordlist, a run of
    [parse_args] that succeeds has found the text stream open, replaced
    it by what the stream delivered, left the frequencies absent and
    closed the stream. *)
Theorem text_is_read_without_wordlist arguments w w1 ns w' args :
  parser_parse_args arguments w = (w1, Ok ns) ->
  ~ supplied_wordlist arguments ->
  parse_args arguments w = (w', Ok args) ->
  exists st,
    streams w1 !! ns_text ns = Some st /\ closed st = false /\
    text args = TextContent (delivered st) /\ wordlist args = None /\
    is_closed w' (ns_text ns).
Proof.
  intros Hp Hno Hr. unfold parse_args in Hr.
  rewrite (bind_eq_Ok _ _ _ _ _ Hp) in Hr.
  destruct (consume_args_wordlist _ _ _ _ _ Hp) as [_ Hnone].
  specialize (Hnone Hno). cbn [ns_wordlist defaults] in Hnone.
  pose proof (resolve_Ok _ _ _ _ Hr) as (Hg & _ & _ & _ & _ & _ & Hin & _).
  rewrite Hnone in Hin. destruct Hin as (st & Hst & Hcl & Ht & Hwl).
  exists st. split_and!; try done.
  rewrite resolve_stages, Hg in Hr. apply stages_close_input in Hr.
  unfold input_stream in Hr. by rewrite Hnone in Hr.
Qed.

(** X8 ([main], lines 69-72, after [parse_args]).  After a successful
    [parse_args], [main] generates from the frequencies exactly when a
    wordlist was given on the command line, and otherwise from the text
    that was read from the text stream. *)
Theorem main_generation_choice arguments w w' args :
  parse_args arguments w = (w', Ok args) ->
  (supplied_wordlist arguments /\
   exists d, wordlist args = Some d /\ main args = generate_from_frequencies d)
  \/ (~ supplied_wordlist arguments /\
      exists s, text args = TextContent s /\ wordlist args = None /\
                main args = generate (TextContent s)).
Proof.
  intros (ns & w1 & Hp & Hr)%parse_args_Ok.
  destruct (consume_args_wordlist _ _ _ _ _ Hp) as [Hsome Hnone].
  apply resolve_Ok in Hr as (_ & _ & _ & _ & _ & _ & Hin & _).
  destruct (supplied_wordlist_dec arguments) as [Hs|Hn].
  - left. split; [done|]. destruct Hsome as [f Hf]; [by left|].
    rewrite Hf in Hin. destruct Hin as (st & d & _ & _ & _ & _ & Hd).
    exists d. split; [done|]. unfold main. by rewrite Hd.
  - right. split; [done|]. rewrite (Hnone Hn) in Hin. cbn in Hin.
    destruct Hin as (st & _ & _ & Ht & Hwl). exists (delivered st).
    split_and!; try done. unfold main. by rewrite Hwl, Ht.
Qed.

(** X9 ([parse_args], lines 166-172).  The colour function of a
    successful run: with a non-empty colour (the last [--color]) it is
    [get_single_color_func] of that colour, and there is no colour mask;
    otherwise it is an [ImageColorGenerator] when a colour mask was given
    and [random_color_func] when none was. *)
Theorem color_function_selection arguments w w' args :
  parse_args arguments w = (w', Ok args) ->
  match color_argument arguments None with
  | Some (c0 :: c) =>
      ~ supplied_colormask arguments /\
      color_func args = get_single_color_func (c0 :: c)
  | _ =>
      (supplied_colormask arguments ->
       exists image, color_func args = ImageColorGenerator image)
      /\ (~ supplied_colormask arguments ->
          color_func args = random_color_func)
  end.
Proof.
  intros (ns & w1 & Hp & Hr)%parse_args_Ok.
  destruct (consume_args_colormask _ _ _ _ _ Hp) as (Hsome & Hnone & _).
  apply consume_args_color in Hp as Hcol. cbn [ns_color defaults] in Hcol.
  apply resolve_Ok in Hr as (Hg & _ & _ & _ & _ & _ & _ & Hcf).
  rewrite Hcol in *. cbn [ns_colormask defaults] in Hnone.
  destruct (color_argument arguments None) as [[|c0 c]|]; cbn in Hcf, Hg.
  - split.
    + intros (f & Hf & _)%Hsome. by rewrite Hf in Hcf.
    + intros Hn%Hnone. by rewrite Hn in Hcf.
  - split; [|done]. intros (f & Hf & _)%Hsome. by rewrite Hf in Hg.
  - split.
    + intros (f & Hf & _)%Hsome. by rewrite Hf in Hcf.
    + intros Hn%Hnone. by rewrite Hn in Hcf.
Qed.

(** X10 ([parse_args], lines 139-177).  After the parser, [parse_args]
    opens nothing; it reads only the input stream (the wordlist, or the
    text without one), the stopwords, the mask and the colour mask, and it
    closes only the input stream and the stopwords stream; this holds for
    the runs that fail as for those that succeed. *)
Theorem after_the_parser arguments w w1 ns w' (r : result (Args host)) :
  parser_parse_args arguments w = (w1, Ok ns) ->
  parse_args arguments w = (w', r) ->
  events_only (resolve_event ns) w1 w'.
Proof.
  intros Hp Hr. unfold parse_args in Hr.
  rewrite (bind_eq_Ok _ _ _ _ _ Hp) in Hr. by eapply resolve_events.
Qed.
End ResolveMore.



Section ResolveErrors.
Context {host : Host}.
Implicit Types (ns : Namespace host) (w : world) (args : Args host).

(** X11 ([parse_args], lines 145-150).  When a line of the wordlist is
    wrong, [parse_args] fails with the exception of that line, and the
    [with] statement has closed the wordlist stream all the same: the
    stream was read, then closed, and nothing else happened after the
    parser. *)
Theorem wordlist_error_closes_stream arguments w w1 ns f st e :
  parser_parse_args arguments w = (w1, Ok ns) ->
  truthy_stream (ns_colormask ns) && truthy_str (ns_color ns) = false ->
  ns_wordlist ns = Some f ->
  streams w1 !! f = Some st -> closed st = false ->
  parse_wordlist (delivered st) = Raise e ->
  exists w',
    parse_args (host:=host) arguments w = (w', Raise e) /\
    is_closed w' f /\
    trace w' = trace w1 ++ [EvRead f; EvClose f].
Proof.
  intros Hp Hg Hf Hst Hcl He. unfold parse_args.
  rewrite (bind_eq_Ok _ _ _ _ _ Hp), resolve_stages, Hg.
  unfold stages, read_input. rewrite Hf.
  unfold bind, with_stream, read, read_with. rewrite Hst, Hcl.
  unfold lift. rewrite He. eexists. split; [done|]. split.
  - apply close_closes. cbn. apply lookup_lt_is_Some.
    rewrite length_insert. by eapply lookup_lt_Some.
  - cbn. by rewrite <- app_assoc.
Qed.

(** X12 ([parse_args], lines 145-168).  When the stopwords, the mask or
    the colour mask is the very stream of the input (the wordlist, or the
    text without one), as with ["-"] for both, [parse_args] never
    succeeds: the input statement closes the stream and the later one
    finds it closed. *)
Theorem shared_input_stream_fails arguments w w1 ns w'
    (r : result (Args host)) :
  parser_parse_args arguments w = (w1, Ok ns) ->
  ns_stopwords ns = Some (input_stream ns)
  \/ ns_mask ns = Some (input_stream ns)
  \/ ns_colormask ns = Some (input_stream ns) ->
  parse_args arguments w = (w', r) ->
  exists e, r = Raise e.
Proof.
  intros Hp Halias Hr. unfold parse_args in Hr.
  rewrite (bind_eq_Ok _ _ _ _ _ Hp), resolve_stages in Hr.
  destruct (_ && _); [injection Hr as _ <-; eauto|].
  unfold stages, bind in Hr.
  destruct (read_input ns w1) as [w2 [input|e]] eqn:E1;
    [|injection Hr as _ <-; eauto].
  apply read_input_closes in E1 as Hc2.
  destruct (read_stopwords ns w2) as [w3 [stop|e]] eqn:E2;
    [|injection Hr as _ <-; eauto].
  pose proof (stays_closed_stopwords _ _ _ _ _ E2 Hc2) as Hc3.
  destruct (read_mask ns w3) as [w4 [m|e]] eqn:E3;
    [|injection Hr as _ <-; eauto].
  pose proof (stays_closed_mask _ _ _ _ _ E3 Hc3) as Hc4.
  destruct (mask_color_func ns w4) as [w5 [cf|e]] eqn:E4;
    [|injection Hr as _ <-; eauto].
  exfalso. destruct Halias as [Ha|[Ha|Ha]].
  - unfold read_stopwords in E2. rewrite Ha in E2. unfold bind in E2.
    by rewrite with_stream_closed in E2.
  - unfold read_mask in E3. rewrite Ha in E3.
    unfold bind, load_image, read_bytes in E3. unfold bind in E3.
    by rewrite read_with_closed in E3.
  - unfold mask_color_func in E4. rewrite Ha in E4.
    unfold bind, load_image, read_bytes in E4. unfold bind in E4.
    by rewrite read_with_closed in E4.
Qed.
End ResolveErrors.


(** ** The wordlist and the stopwords *)

(** X14 (the wordlist loop, lines 145-151).  Two wordlists that parse,
    written one after the other with a newline between them, parse to the
    union of their mappings in which the counts of the second win. *)
Theorem wordlist_concatenation c1 c2 d1 d2 :
  parse_wordlist c1 = Ok d1 -> parse_wordlist c2 = Ok d2 ->
  parse_wordlist (c1 ++ 0x0A :: c2) = Ok (d2 ∪ d1).
Proof.
  intros [H1 ->]%parse_wordlist_Ok [H2 ->]%parse_wordlist_Ok.
  unfold parse_wordlist, Py.readlines.
  rewrite PyMore.lines_from_newline, wordlist_loop_app,
    wordlist_loop_final_newline.
  fold (Py.readlines c1). fold (Py.readlines c2).
  rewrite !wordlist_loop_Ok by done. cbn [app].
  by rewrite PyMore.dict_app.
Qed.

(** X15 (the wordlist loop, lines 145-151).  A wordlist made of
    whitespace only (the empty one included) parses to the empty
    mapping. *)
Theorem wordlist_of_blanks content :
  Forall (fun c => Py.isspace c = true) content ->
  parse_wordlist content = Ok ∅.
Proof.
  intros H. unfold parse_wordlist, Py.readlines.
  rewrite wordlist_loop_all_blank; [done|].
  eapply Forall_impl;
    [apply PyMore.lines_from_Forall; [constructor | exact H]|].
  intros line Hl. by apply PyMore.strip_all_space.
Qed.

(** X16 (the wordlist loop, lines 145-151).  In the mapping of a
    wordlist no word contains the separator [;], and there are at most as
    many words as the wordlist has non-blank lines. *)
Theorem wordlist_words content d :
  parse_wordlist content = Ok d ->
  (forall w, is_Some (d !! w) -> 0x3B ∉ w)
  /\ (size d
      <= length (filter (fun line => Py.strip line <> [])
                        (Py.readlines content)))%nat.
Proof.
  intros [_ ->]%parse_wordlist_Ok. split.
  - intros w [c Hc].
    apply PyFacts.dict_lookup_Some, list_elem_of_omap in Hc
      as (line & _ & Hp).
    by eapply line_pair_no_separator.
  - etrans; [apply PyMore.dict_size | apply pairs_length].
Qed.

(** X17 (the wordlist loop, lines 145-151).  When no word occurs on two
    lines, the order of the lines does not matter: a wordlist with the
    same lines in another order parses to the same mapping. *)
Theorem wordlist_order_irrelevant c1 c2 d :
  parse_wordlist c1 = Ok d ->
  Py.readlines c1 ≡ₚ Py.readlines c2 ->
  NoDup (omap line_pair (Py.readlines c1)).*1 ->
  parse_wordlist c2 = Ok d.
Proof.
  intros [H1 ->]%parse_wordlist_Ok Hperm Hnd.
  unfold parse_wordlist.
  rewrite wordlist_loop_Ok by by eapply line_ok_Permutation.
  cbn [app]. f_equal. rewrite !PyMore.dict_list_to_map. symmetry.
  apply list_to_map_proper.
  - by rewrite reverse_Permutation.
  - by rewrite !reverse_Permutation, Hperm.
Qed.

(** X18 (the stopwords, lines 159-161).  The stopwords are the lines of
    the stopwords stream, each trimmed of its surrounding whitespace
    (the line end included), and nothing else; so every stopword is
    trimmed. *)
Theorem stopwords_are_trimmed content :
  (forall v, v ∈ stopword_set content <->
             exists line, line ∈ Py.readlines content /\ Py.strip line = v)
  /\ (forall v, v ∈ stopword_set content -> Py.strip v = v).
Proof.
  assert (forall v, v ∈ stopword_set content <->
             exists line, line ∈ Py.readlines content /\ Py.strip line = v)
    as H.
  { intros v. unfold stopword_set.
    rewrite elem_of_list_to_set, list_elem_of_fmap. naive_solver. }
  split; [done|]. intros v (line & _ & <-)%H. apply PyFacts.strip_idem.
Qed.


(** ** The further properties at work on concrete runs *)



(** X3 at a command line with files and a [-]. *)
Lemma parser_opens_exactly_witness :
  exists w' ns,
    parser_parse_args (host := simple_host [(str "a", []); (str "b", [])])
      [opt_text (str "a"); opt_text (str "b"); opt_mask (str "-")]
      (initial_world false []) = (w', Ok ns)
    /\ ns_text ns = 3%nat
    /\ trace w' = [EvOpen (str "a") (str "r") 2; EvOpen (str "b") (str "r") 3].
Proof.
  edestruct (parser_opens_exactly
               (host := simple_host [(str "a", []); (str "b", [])])
               [opt_text (str "a"); opt_text (str "b"); opt_mask (str "-")]
               (initial_world false [])) as [Ht _];
    [vm_compute; reflexivity|].
  eexists _, _. split; [vm_compute; reflexivity|]. split; [reflexivity|].
  exact Ht.
Defined.

(** X4 at a file that does not exist. *)
Lemma parser_failure_status_witness :
  (exists m, SystemExit 2 (Msg (cant_open (str "nofile")
                                  (str "[Errno 2] No such file or directory")))
             = SystemExit 2 m)
  \/ (exists path mode bufsize enc,
        io_open (simple_host []) path mode bufsize enc
        = OpenRaises
            (SystemExit 2 (Msg (cant_open (str "nofile")
                                  (str "[Errno 2] No such file or directory"))))).
Proof.
  eapply (parser_failure_status (host := simple_host [])
            [opt_text (str "nofile")] (initial_world false [])).
  vm_compute. reflexivity.
Defined.

(** X6 at two occurrences of [--width]. *)
Lemma numeric_options_witness :
  exists w' args,
    parse_args (host := simple_host [])
      [opt_width (str "100"); opt_width (str " 1_000 ")]
      (initial_world false []) = (w', Ok args)
    /\ Py.int (str " 1_000 ") = Some (width args)
    /\ height args = 200%Z.
Proof.
  edestruct (numeric_options (host := simple_host [])
               [opt_width (str "100"); opt_width (str " 1_000 ")]
               (initial_world false [])) as (Hw & Hh & _);
    [vm_compute; reflexivity|].
  eexists _, _. split; [vm_compute; reflexivity|].
  split; [exact Hw | exact Hh].
Defined.



(** X7 at the empty command line. *)
Lemma text_is_read_without_wordlist_witness :
  exists w' args,
    parse_args (host := simple_host []) []
      (initial_world false (str "hello")) = (w', Ok args)
    /\ text args = TextContent (str "hello")
    /\ is_closed w' stdin.
Proof.
  edestruct (text_is_read_without_wordlist (host := simple_host []) []
               (initial_world false (str "hello")))
    as (st & Hst & _ & Ht & _ & Hc).
  - vm_compute. reflexivity.
  - intros [p Hp]. by apply elem_of_nil in Hp.
  - vm_compute. reflexivity.
  - vm_compute in Hst. injection Hst as <-.
    eexists _, _. split; [vm_compute; reflexivity|].
    split; [exact Ht | exact Hc].
Defined.

(** X8 at a wordlist of one line. *)
Lemma main_generation_choice_witness :
  exists w' args,
    parse_args (host := simple_host [(str "wl", str "a;1")])
      [opt_wordlist (str "wl")] (initial_world false []) = (w', Ok args)
    /\ exists d, wordlist args = Some d
                 /\ main args = generate_from_frequencies d.
Proof.
  edestruct (main_generation_choice
               (host := simple_host [(str "wl", str "a;1")])
               [opt_wordlist (str "wl")] (initial_world false []))
    as [[_ H]|[Hno _]].
  - vm_compute. reflexivity.
  - eexists _, _. split; [vm_compute; reflexivity | exact H].
  - destruct Hno. exists (str "wl"). constructor.
Defined.

(** X9 at [--color red]. *)
Lemma color_function_selection_witness :
  exists w' args,
    parse_args (host := simple_host []) [opt_color (str "red")]
      (initial_world false []) = (w', Ok args)
    /\ color_func args = get_single_color_func (str "red").
Proof.
  edestruct (color_function_selection (host := simple_host [])
               [opt_color (str "red")] (initial_world false []))
    as [_ H].
  - vm_compute. reflexivity.
  - eexists _, _. split; [vm_compute; reflexivity | exact H].
Defined.

(** X11 at a wordlist line without separator. *)
Lemma wordlist_error_closes_stream_witness :
  exists w',
    parse_args (host := simple_host [(str "wl", str "badline")])
      [opt_wordlist (str "wl")] (initial_world false [])
    = (w', Raise IndexError)
    /\ is_closed w' 2.
Proof.
  edestruct (wordlist_error_closes_stream
               (host := simple_host [(str "wl", str "badline")])
               [opt_wordlist (str "wl")] (initial_world false []))
    as (w' & H1 & H2 & _).
  - vm_compute. reflexivity.
  - reflexivity.
  - reflexivity.
  - reflexivity.
  - reflexivity.
  - vm_compute. reflexivity.
  - exists w'. split; [exact H1 | exact H2].
Defined.

(** X12 at [--stopwords -] with the text on standard input. *)
Lemma shared_input_stream_fails_witness :
  exists w' e,
    parse_args (host := simple_host []) [opt_stopwords (str "-")]
      (initial_world false (str "some text")) = (w', Raise e).
Proof.
  destruct (parse_args (host := simple_host []) [opt_stopwords (str "-")]
              (initial_world false (str "some text"))) as [w' r] eqn:E.
  edestruct (shared_input_stream_fails (host := simple_host [])
               [opt_stopwords (str "-")]
               (initial_world false (str "some text"))) as [e He].
  - vm_compute. reflexivity.
  - left. reflexivity.
  - exact E.
  - exists w', e. by rewrite He.
Defined.

(** X10 at [--mask m]. *)
Lemma after_the_parser_witness :
  exists w1 ns w' r,
    parser_parse_args (host := simple_host [(str "m", [0x89])])
      [opt_mask (str "m")] (initial_world false (str "text")) = (w1, Ok ns)
    /\ parse_args (host := simple_host [(str "m", [0x89])])
         [opt_mask (str "m")] (initial_world false (str "text")) = (w', r)
    /\ trace w' = trace w1 ++ [EvRead stdin; EvClose stdin; EvRead 2]
    /\ events_only (resolve_event ns) w1 w'.
Proof.
  eexists _, _, _, _. split; [vm_compute; reflexivity|].
  split; [vm_compute; reflexivity|]. split; [reflexivity|].
  eapply (after_the_parser (host := simple_host [(str "m", [0x89])])
            [opt_mask (str "m")] (initial_world false (str "text")));
    vm_compute; reflexivity.
Defined.

(** X18 at a stopword given with and without blanks. *)
Lemma stopwords_are_trimmed_witness :
  str "the" ∈ stopword_set (str " the " ++ [0x0A] ++ str "the" ++ [0x0A]).
Proof.
  apply (proj1 (stopwords_are_trimmed _)).
  exists (str " the " ++ [0x0A]). split; [|reflexivity].
  vm_compute. constructor.
Defined.

(** X14 at two wordlists with a common word. *)
Lemma wordlist_concatenation_witness :
  parse_wordlist (str "a;1" ++ 0x0A :: str "a;2")
  = Ok ({[ str "a" := 2%Z ]} ∪ {[ str "a" := 1%Z ]}).
Proof. apply wordlist_concatenation; reflexivity. Defined.

(** X15 at two blank lines. *)
Lemma wordlist_of_blanks_witness :
  parse_wordlist [0x20; 0x0A; 0x09; 0x0A] = Ok ∅.
Proof. apply wordlist_of_blanks. repeat constructor. Defined.

(** X16 at a wordlist of one line. *)
Lemma wordlist_words_witness :
  (forall w, is_Some (({[ str "a" := 1%Z ]} : gmap pystr Z) !! w) ->
             0x3B ∉ w)
  /\ (size ({[ str "a" := 1%Z ]} : gmap pystr Z)
      <= length (filter (fun line => Py.strip line <> [])
                        (Py.readlines (str "a;1"))))%nat.
Proof. apply wordlist_words. reflexivity. Defined.

(** X17 at two lines exchanged. *)
Lemma wordlist_order_irrelevant_witness :
  parse_wordlist (str "b;2" ++ [0x0A] ++ str "a;1" ++ [0x0A])
  = Ok (<[ str "b" := 2%Z ]> {[ str "a" := 1%Z ]}).
Proof.
  apply (wordlist_order_irrelevant
           (str "a;1" ++ [0x0A] ++ str "b;2" ++ [0x0A])).
  - reflexivity.
  - vm_compute. apply perm_swap.
  - vm_compute. repeat constructor; set_solver.
Defined.
